(** * cc_studio backend: batch state, worker policy, session registry, shutdown

    A shallow embedding of the concurrency core of
    [src/backend/server_enhanced.py] and the properties its specification
    states about it.

    Conventions.
    - Python [int]s are [Z], Python [str]s are [string], [Optional[T]] is
      [option T], a [dict] used as a map is a [gmap].
    - Objects that the source mutates in place and shares (the per-item
      progress dicts) live in an explicit heap and are referred to by
      location, so that aliasing is visible.
    - Every method of [BatchState] and [ThreadSafeSession] runs under the
      object's re-entrant lock; a method call is therefore one atomic
      transition of the model. *)

From Stdlib Require Import ZArith Floats Ascii.
From stdpp Require Import gmap strings list pretty.

Local Open Scope string_scope.
Local Open Scope list_scope.
Local Open Scope Z_scope.
Set Warnings "-register-all".

(** ** Python values *)

(** JSON-like values stored in the session and carried by requests.
    Float literals keep their source text: no arithmetic is done on them.
    [VObj] is an opaque handle to an external object (a trained
    [ColorCorrection] instance). *)
Inductive pyval :=
  | VNone
  | VBool (b : bool)
  | VInt (z : Z)
  | VFloat (literal : string)
  | VStr (s : string)
  | VList (l : list pyval)
  | VDict (d : gmap string pyval)
  | VObj (handle : nat).

(** [if error:] on an [Optional[str]]: [None] and the empty string are falsy. *)
Definition truthy_str (e : option string) : bool :=
  match e with
  | Some s => negb (String.eqb s "")
  | None => false
  end.

(** ** BatchState (lines 93-169) *)

Module BatchState.

(** One entry of [progress]: the dict
    [{'image_index', 'filename', 'status', 'error'}]. *)
Record item := Item {
  image_index : Z;
  filename : string;
  status : string;
  error : option string
}.

(** The dict objects of all progress entries ever created. A location is an
    index into this list; allocation appends. *)
Definition loc := nat.
Definition heap := list item.

(** A worker's result dict ([process_single_image_with_timeout]). *)
Inductive result :=
  | Success (idx : Z) (fname : string)
            (corrected_images : list (string * string)) (original_path : string)
  | Failure (idx : Z) (fname : string) (err : string).

(** The dataclass fields; [progress] holds references to dict objects. *)
Record t := Make {
  batch_id : string;
  active : bool;
  progress : list loc;
  results : list result;
  total : Z;
  completed : Z;
  failed : Z
}.

(** [BatchState()]: the dataclass defaults. *)
Definition initial : t :=
  {| batch_id := ""; active := false; progress := []; results := [];
     total := 0; completed := 0; failed := 0 |}.

(** The object together with the heap its references point into. *)
Definition world := (heap * t)%type.

(** [reset] (lines 106-123): fresh dicts are built for
    [zip(image_indices, filenames)]. *)
Definition reset (bid : string) (tot : Z) (image_indices : list Z)
    (filenames : list string) (w : world) : world :=
  let '(h, _) := w in
  let fresh := (fun p : Z * string =>
                  {| image_index := p.1; filename := p.2;
                     status := "pending"; error := None |})
               <$> zip image_indices filenames in
  (h ++ fresh,
   {| batch_id := bid; active := true;
      progress := seq (length h) (length fresh);
      results := []; total := tot; completed := 0; failed := 0 |}).

(** The [for p in self.progress: if p['image_index'] == image_index] scan:
    the first matching entry, if any. *)
Fixpoint find_item (h : heap) (ps : list loc) (idx : Z) : option loc :=
  match ps with
  | [] => None
  | l :: ps' =>
      match h !! l with
      | Some it => if image_index it =? idx then Some l else find_item h ps' idx
      | None => find_item h ps' idx
      end
  end.

(** The body of the scan on a hit: [p['status'] = status] and, when [error]
    is truthy, [p['error'] = error]. *)
Definition set_status (st : string) (err : option string) (it : item) : item :=
  {| image_index := image_index it; filename := filename it; status := st;
     error := if truthy_str err then err else error it |}.

(** [update_status] (lines 125-138). The counters are bumped after the
    scan, outside the loop. *)
Definition update_status (idx : Z) (st : string) (err : option string)
    (w : world) : world :=
  let '(h, b) := w in
  let h' := match find_item h (progress b) idx with
            | Some l => alter (set_status st err) l h
            | None => h
            end in
  let c := if String.eqb st "completed" then completed b + 1 else completed b in
  let f := if String.eqb st "completed" then failed b
           else if String.eqb st "failed" then failed b + 1 else failed b in
  (h', {| batch_id := batch_id b; active := active b; progress := progress b;
          results := results b; total := total b; completed := c; failed := f |}).

(** [add_result] (lines 140-143). *)
Definition add_result (r : result) (w : world) : world :=
  let '(h, b) := w in
  (h, {| batch_id := batch_id b; active := active b; progress := progress b;
         results := results b ++ [r]; total := total b;
         completed := completed b; failed := failed b |}).

(** [is_active] (lines 145-148). *)
Definition is_active (w : world) : bool := active w.2.

(** [mark_complete] (lines 150-153). *)
Definition mark_complete (w : world) : world :=
  let '(h, b) := w in
  (h, {| batch_id := batch_id b; active := false; progress := progress b;
         results := results b; total := total b;
         completed := completed b; failed := failed b |}).

(** The dict returned by [get_status]. [s_progress] is
    [self.progress.copy()]: a new list holding the same references. *)
Record snapshot := Snapshot {
  s_batch_id : string;
  s_active : bool;
  s_total : Z;
  s_completed : Z;
  s_failed : Z;
  s_progress : list loc;
  s_has_results : bool
}.

(** [get_status] (lines 155-166). *)
Definition get_status (w : world) : snapshot :=
  let b := w.2 in
  {| s_batch_id := batch_id b; s_active := active b; s_total := total b;
     s_completed := completed b; s_failed := failed b;
     s_progress := progress b;
     s_has_results := bool_decide (0 < length (results b))%nat |}.

(** What a holder of references sees when it reads them (e.g. when the
    snapshot is serialised): the current contents of the dicts. *)
Definition deref (h : heap) (ps : list loc) : list item :=
  omap (fun l => h !! l) ps.

(** The progress entries of the batch state as values. *)
Definition progress_items (w : world) : list item :=
  deref w.1 (progress w.2).

(** The progress entries a snapshot shows when read in heap [h]. *)
Definition snapshot_items (h : heap) (s : snapshot) : list item :=
  deref h (s_progress s).

(** Writing through a snapshot: [snap['progress'][i][key] = ...]. *)
Definition snapshot_set_status (s : snapshot) (i : nat) (st : string)
    (w : world) : world :=
  match s_progress s !! i with
  | Some l => (alter (set_status st None) l w.1, w.2)
  | None => w
  end.

End BatchState.

(** ** ThreadSafeSession (lines 171-286) *)

Module Session.

(** [self._data]: a dict from key to value. *)
Abbreviation t := (gmap string pyval) (only parsing).

Definition default_ffc : gmap string pyval :=
  list_to_map [
    ("manual_crop", VBool false); ("bins", VInt 50); ("smooth_window", VInt 5);
    ("degree", VInt 3); ("fit_method", VStr "pls"); ("interactions", VBool true);
    ("max_iter", VInt 1000); ("tol", VFloat "1e-8"); ("verbose", VBool false);
    ("random_seed", VInt 0); ("get_deltaE", VBool true) ].

Definition default_gc : gmap string pyval :=
  list_to_map [
    ("max_degree", VInt 5); ("show", VBool false); ("get_deltaE", VBool true) ].

Definition default_wb : gmap string pyval :=
  list_to_map [ ("show", VBool false); ("get_deltaE", VBool true) ].

Definition default_cc : gmap string pyval :=
  list_to_map [
    ("cc_method", VStr "ours"); ("method", VStr "Finlayson 2015");
    ("mtd", VStr "pls"); ("degree", VInt 2); ("max_iterations", VInt 10000);
    ("random_state", VInt 0); ("tol", VFloat "1e-8"); ("verbose", VBool false);
    ("param_search", VBool false); ("show", VBool false);
    ("get_deltaE", VBool true); ("n_samples", VInt 50); ("ncomp", VInt 1);
    ("nlayers", VInt 100);
    ("hidden_layers", VList [VInt 64; VInt 32; VInt 16]);
    ("learning_rate", VFloat "0.001"); ("batch_size", VInt 16);
    ("patience", VInt 10); ("dropout_rate", VFloat "0.2");
    ("optim_type", VStr "adam"); ("use_batch_norm", VBool true) ].

Definition default_settings : gmap string pyval :=
  list_to_map [
    ("ffc", VDict default_ffc); ("gc", VDict default_gc);
    ("wb", VDict default_wb); ("cc", VDict default_cc) ].

(** [__init__] (lines 174-233). *)
Definition init : t :=
  list_to_map [
    ("images", VList []); ("white_image", VNone); ("ccm_file", VNone);
    ("settings", VDict default_settings); ("cc_instance", VNone);
    ("corrected_images", VList []); ("chart_detection", VNone);
    ("last_metrics", VNone); ("batch_processed_images", VList []);
    ("is_batch_mode", VBool false) ].

(** [get] (lines 235-238): [self._data.get(key, default)]. *)
Definition get (key : string) (default : pyval) (d : t) : pyval :=
  match d !! key with
  | Some v => v
  | None => default
  end.

(** [set] (lines 240-243). *)
Definition set (key : string) (value : pyval) (d : t) : t :=
  <[key := value]> d.

(** [dict.update(other)] for a dict argument: the keys of [other] win. *)
Definition dict_update (old other : gmap string pyval) : gmap string pyval :=
  other ∪ old.

(** [update] (lines 245-251): merge when both the stored and the new value
    are dicts, replace otherwise. *)
Definition update (key : string) (value : pyval) (d : t) : t :=
  match d !! key, value with
  | Some (VDict old), VDict new => <[key := VDict (dict_update old new)]> d
  | _, _ => <[key := value]> d
  end.

(** [append_to_list] (lines 253-258). [None] is the [AttributeError] raised
    when the stored value is not a list. *)
Definition append_to_list (key : string) (value : pyval) (d : t) : option t :=
  match get key (VList []) d with
  | VList l => Some (<[key := VList (l ++ [value])]> d)
  | _ => None
  end.

(** [clear_list] (lines 267-271). *)
Definition clear_list (key : string) (d : t) : t :=
  match d !! key with
  | Some (VList _) => <[key := VList []]> d
  | _ => d
  end.

(** [reset] (lines 273-283): eight assignments. *)
Definition reset (d : t) : t :=
  let d := <["images" := VList []]> d in
  let d := <["white_image" := VNone]> d in
  let d := <["ccm_file" := VNone]> d in
  let d := <["corrected_images" := VList []]> d in
  let d := <["chart_detection" := VNone]> d in
  let d := <["last_metrics" := VNone]> d in
  let d := <["batch_processed_images" := VList []]> d in
  <["is_batch_mode" := VBool false]> d.

(** The keys [reset] assigns. *)
Definition reset_keys : list string :=
  ["images"; "white_image"; "ccm_file"; "corrected_images"; "chart_detection";
   "last_metrics"; "batch_processed_images"; "is_batch_mode"].

End Session.

(** ** Worker policy (lines 421-441, 1401-1412, 1784-1796) *)

Module Workers.

(** [int(x)] for a double [x]: truncation toward zero; [None] for an
    infinity or a NaN, where Python raises. *)
Definition trunc_float (f : float) : option Z :=
  match Prim2SF f with
  | S754_zero _ => Some 0
  | S754_finite s m e =>
      let a := if 0 <=? e then Z.shiftl (Z.pos m) e else Z.shiftr (Z.pos m) (- e) in
      Some (if s then - a else a)
  | _ => None
  end.

(** [int(0.6 * cpu_count)] evaluated as Python does, in binary64: the
    product of the double nearest to 0.6 and the count, truncated. *)
Definition int_0_6_times_ieee (n : Z) : option Z :=
  trunc_float (PrimFloat.mul 0x1.3333333333333p-1%float
                             (PrimFloat.of_uint63 (Uint63.of_Z n))).

(** The same quantity in integer arithmetic, [floor(6 n / 10)]. The two
    agree on every count up to 2048 ([int_0_6_times_is_ieee]); the handlers
    below are stated with this one. *)
Definition int_0_6_times (n : Z) : Z := (6 * n) / 10.

(** [calculate_optimal_workers] (lines 421-441); [cpu_count] is what
    [multiprocessing.cpu_count()] returns. *)
Definition calculate_optimal_workers (cpu_count : Z) (num_images : Z)
    (has_gpu : bool) : Z :=
  if has_gpu then Z.min 2 num_images
  else
    let optimal_workers := Z.max 1 (int_0_6_times cpu_count) in
    Z.min optimal_workers num_images.

(** Worker count of the bulk batch run (lines 1401-1412):
    [max(1, min(int(user_max_workers), 16, len(validated_indices)))] when
    the request carries [max_workers]. *)
Definition batch_workers (cpu_count : Z) (has_gpu : bool)
    (user_max_workers : option Z) (n_validated : Z) : Z :=
  match user_max_workers with
  | Some u => Z.max 1 (Z.min (Z.min u 16) n_validated)
  | None => calculate_optimal_workers cpu_count n_validated has_gpu
  end.

(** Worker count of the inference-only apply (lines 1784-1796). *)
Definition apply_workers (cpu_count : Z) (has_gpu : bool)
    (user_max_workers : option Z) (n_indices : Z) : Z :=
  match user_max_workers with
  | Some u => Z.max 1 (Z.min (Z.min u 8) n_indices)
  | None =>
      let optimal_workers := calculate_optimal_workers cpu_count n_indices has_gpu in
      Z.min (Z.min 2 optimal_workers) n_indices
  end.

End Workers.

(** ** HTTP handlers *)

Module Server.

(** What the handlers read from the process environment. *)
Record env := Env {
  CC_AVAILABLE : bool;      (* the pipeline library imported (lines 55-63) *)
  cpu_count : Z;            (* multiprocessing.cpu_count() *)
  gpu_available : bool;     (* check_gpu_available() *)
  REQUEST_TIMEOUT : Z       (* seconds (line 87) *)
}.

(** The two process-wide singletons, [parallel_batch_state] and
    [session_data]. *)
Record state := State {
  batch : BatchState.world;
  session : Session.t
}.

Definition initial : state :=
  {| batch := ([], BatchState.initial); session := Session.init |}.

(** [jsonify(body), code]. *)
Record response := Response {
  code : Z;
  body : gmap string pyval
}.

Definition failure (c : Z) (msg : string) : response :=
  {| code := c;
     body := list_to_map [("success", VBool false); ("error", VStr msg)] |}.

(** [validate_image_index] (lines 293-299) on an [int] index. *)
Definition validate_image_index (index total : Z) : bool * option string :=
  if (index <? 0) || (total <=? index)
  then (false, Some ("Image index " +:+ pretty index +:+ " out of range [0, "
                      +:+ pretty (total - 1) +:+ "]"))
  else (true, None).

Definition valid_methods : list string :=
  ["pls"; "nn"; "linear"; "svm"; "conventional"].

(** [validate_method] (lines 301-306). *)
Definition validate_method (method : string) : bool * option string :=
  if bool_decide (method ∈ valid_methods) then (true, None)
  else (false, Some ("Invalid method '" +:+ method +:+
          "'. Must be one of: ['pls', 'nn', 'linear', 'svm', 'conventional']")).

(** *** /api/settings/<step> (lines 625-668) *)

Definition valid_steps : list string := ["ffc"; "gc"; "wb"; "cc"].

(** A request to the settings route. For a POST, [Some upd] is the JSON
    object found under ['settings'] in the body and [None] stands for a
    body that is empty or has no such member. *)
Inductive settings_request :=
  | SettingsGet
  | SettingsPost (settings : option (gmap string pyval)).

(** [step.upper()]. *)
Definition upper_step (step : string) : string :=
  if String.eqb step "ffc" then "FFC"
  else if String.eqb step "gc" then "GC"
  else if String.eqb step "wb" then "WB"
  else if String.eqb step "cc" then "CC"
  else step.

(** The handler. Exceptions ([KeyError] for a stage missing from the stored
    settings, a type error when a stored value is not a dict) end in the
    500 branch of the enclosing [try]. *)
Definition handle_settings (step : string) (req : settings_request)
    (s : Session.t) : response * Session.t :=
  if negb (bool_decide (step ∈ valid_steps)) then
    (failure 400 ("Invalid step '" +:+ step +:+
                  "'. Must be one of: ['ffc', 'gc', 'wb', 'cc']"), s)
  else
    match req with
    | SettingsGet =>
        match Session.get "settings" (VDict ∅) s with
        | VDict cur =>
            ({| code := 200;
                body := list_to_map
                  [("success", VBool true);
                   ("settings", default (VDict ∅) (cur !! step))] |}, s)
        | _ => (failure 500 "settings is not a dict", s)
        end
    | SettingsPost None =>
        (failure 400 "Missing settings in request body", s)
    | SettingsPost (Some upd) =>
        match Session.get "settings" (VDict ∅) s with
        | VDict current_settings =>
            match current_settings !! step with
            | Some (VDict old) =>
                let merged := Session.dict_update old upd in
                let current_settings := <[step := VDict merged]> current_settings in
                ({| code := 200;
                    body := list_to_map
                      [("success", VBool true);
                       ("message", VStr (upper_step step +:+ " settings updated"));
                       ("settings", VDict merged)] |},
                 Session.set "settings" (VDict current_settings) s)
            | Some _ => (failure 500 "stage settings is not a dict", s)
            | None => (failure 500 ("'" +:+ step +:+ "'"), s)
            end
        | _ => (failure 500 "settings is not a dict", s)
        end
    end.

(** The record stored for [step], as the handlers read it:
    [session_data.get('settings', {}).get(step)]. *)
Definition stage_settings (step : string) (s : Session.t)
    : option (gmap string pyval) :=
  match Session.get "settings" (VDict ∅) s with
  | VDict cur =>
      match cur !! step with
      | Some (VDict r) => Some r
      | _ => None
      end
  | _ => None
  end.

(** *** /api/clear-session (lines 1572-1587) *)

Definition clear_session (st : state) : response * state :=
  ({| code := 200;
      body := list_to_map [("success", VBool true);
                           ("message", VStr "Session cleared successfully")] |},
   {| batch := batch st; session := Session.reset (session st) |}).

(** [cc_instance is not None], the test of /api/check-model and the guard of
    /api/apply-cc (lines 1724-1725, 1768-1769). *)
Definition model_available (s : Session.t) : bool :=
  match Session.get "cc_instance" VNone s with
  | VNone => false
  | _ => true
  end.


(** *** /api/run-cc-parallel (lines 1344-1554) *)

(** What [int(user_max_workers)] (line 1407) does with the value sent under
    ['max_workers']: it returns an [int], or it raises (a [ValueError] for
    text that is no number, a [TypeError] for a list or an object), with the
    text of the exception. *)
Inductive int_result :=
  | IntOk (u : Z)
  | IntRaises (msg : string).

(** The members of the request body, a JSON object, that decide admission
    and sizing. [image_indices] holds the [int] entries of the list sent;
    [validate_image_index] drops every other entry (line 295). [max_workers]
    is [None] when the member is absent or null. The stage flags and
    per-request stage settings are handed on to the workers and are left
    out; with [ffcEnabled] the route also loads the white image whose path
    the session holds (lines 1427-1433), which is [None] or the dict with a
    ['path'] string that the upload route stores (lines 765-770), a read
    that does not fail. *)
Record submit_request := SubmitRequest {
  image_indices : list Z;           (* data.get('image_indices', []) *)
  method : string;                  (* data.get('method', 'pls') *)
  max_workers : option int_result   (* data.get('max_workers') *)
}.

(** Lines 1404-1407: no override when the member is [None]; otherwise
    [int(user_max_workers)], whose exception ends the request in the
    handler's [except] clause. *)
Definition int_of_max_workers (m : option int_result) : string + option Z :=
  match m with
  | None => inr None
  | Some (IntOk u) => inr (Some u)
  | Some (IntRaises msg) => inl msg
  end.

(** What the handler hands to the background thread it starts. *)
Record spawn := Spawn {
  sp_batch_id : string;
  sp_indices : list Z;
  sp_workers : Z
}.

(** [img[field]] for an entry of the image registry; entries are the dicts
    [{'filename', 'path', 'preview'}] built by the upload route. [None] is
    the exception raised on any other shape. *)
Definition image_field (field : string) (img : pyval) : option string :=
  match img with
  | VDict d =>
      match d !! field with
      | Some (VStr s) => Some s
      | _ => None
      end
  | _ => None
  end.

(** The validation loop (lines 1376-1384): invalid indices are dropped. *)
Definition validate_indices (indices : list Z) (num_images : Z) : list Z :=
  filter (fun idx => (validate_image_index idx num_images).1 = true) indices.

Definition conflict (bid : string) : response :=
  {| code := 409;
     body := list_to_map
       [("success", VBool false);
        ("error", VStr "Batch processing already in progress");
        ("batch_id", VStr bid)] |}.

Definition accepted (bid : string) (n workers : Z) (gpu : bool) : response :=
  {| code := 202;
     body := list_to_map
       [("success", VBool true);
        ("message", VStr ("Started batch " +:+ bid +:+ " with " +:+ pretty n
                          +:+ " images and " +:+ pretty workers +:+ " workers"));
        ("batch_id", VStr bid);
        ("total_images", VInt n);
        ("workers", VInt workers);
        ("has_gpu", VBool gpu);
        ("poll_endpoint", VStr "/api/batch-progress")] |}.

(** The handler; [bid] is the value [generate_batch_id()] returns. *)
Definition run_color_correction_parallel (e : env) (bid : string)
    (req : submit_request) (st : state) : response * state * option spawn :=
  if negb (CC_AVAILABLE e) then
    (failure 503 "ColorCorrectionPipeline not available", st, None)
  else if BatchState.is_active (batch st) then
    (conflict (BatchState.batch_id (batch st).2), st, None)
  else
    match Session.get "images" (VList []) (session st) with
    | VList [] | VNone => (failure 400 "No images loaded", st, None)
    | VList images_list =>
        let num_images := Z.of_nat (length images_list) in
        let validated_indices := validate_indices (image_indices req) num_images in
        match validated_indices with
        | [] => (failure 400 "No valid images to process", st, None)
        | _ =>
            match validate_method (method req) with
            | (false, err) => (failure 400 (default "" err), st, None)
            | (true, _) =>
                match int_of_max_workers (max_workers req) with
                | inl msg => (failure 500 msg, st, None)
                | inr user_max_workers =>
                    let n := Z.of_nat (length validated_indices) in
                    let workers :=
                      Workers.batch_workers (cpu_count e) (gpu_available e)
                                            user_max_workers n in
                    match mapM (fun i => images_list !! Z.to_nat i
                                         ≫= image_field "filename")
                               validated_indices with
                    | Some filenames =>
                        let w := BatchState.reset bid n validated_indices
                                   filenames (batch st) in
                        let sess := Session.set "is_batch_mode" (VBool true)
                                                (session st) in
                        (accepted bid n workers (gpu_available e),
                         {| batch := w; session := sess |},
                         Some {| sp_batch_id := bid;
                                 sp_indices := validated_indices;
                                 sp_workers := workers |})
                    | None => (failure 500 "'filename'", st, None)
                    end
                end
            end
        end
    | _ => (failure 500 "images is not a list", st, None)
    end.

(** *** The background thread, [process_batch_background] (lines 1454-1526) *)

(** How a call of the worker function ends. The worker catches every
    [Exception] itself and returns a result dict; [Raised] is kept for what
    [future.result()] may still re-raise. *)
Inductive outcome :=
  | Returned (r : BatchState.result)
  | Raised (msg : string).

(** A task handed to the pool. When it starts and how long it runs are
    decided by the pool and the pipeline; [None] is a call that never
    returns. Times are seconds since the thread started. *)
Record future := Future {
  f_idx : Z;
  f_started_at : Z;
  f_duration : option Z;
  f_outcome : outcome
}.

Definition done_at (f : future) : option Z :=
  (fun d => f_started_at f + d) <$> f_duration f.

(** [future.result(timeout=...)] called at time [now]: a finished future
    answers at once, otherwise the call waits up to [timeout]. *)
Inductive wait_result :=
  | Got (o : outcome)
  | TimedOut.

Definition future_result (now timeout : Z) (f : future) : wait_result :=
  match done_at f with
  | Some t =>
      if (t <=? now) || (t <=? now + timeout) then Got (f_outcome f) else TimedOut
  | None => TimedOut
  end.

Definition timeout_message (e : env) : string :=
  "Processing timeout after " +:+ pretty (REQUEST_TIMEOUT e) +:+ "s".

(** The entry appended to ['batch_processed_images'] (lines 1491-1497). *)
Definition processed_entry (idx : Z) (fname : string)
    (imgs : list (string * string)) (path : string) : pyval :=
  VDict (list_to_map
    [("image_index", VInt idx); ("filename", VStr fname);
     ("original_path", VStr path);
     ("corrected_images",
      VList ((fun p : string * string =>
                VDict (list_to_map [("name", VStr p.1); ("data", VStr p.2)]))
             <$> imgs));
     ("metrics", VDict ∅)]).

Definition on_batch (f : BatchState.world -> BatchState.world) (st : state)
    : state :=
  {| batch := f (batch st); session := session st |}.

(** The body of the fan-in loop for one future (lines 1482-1509), run at
    time [now]. *)
Definition on_future (e : env) (now : Z) (f : future) (st : state) : state :=
  let idx := f_idx f in
  match future_result now (REQUEST_TIMEOUT e) f with
  | Got (Returned (BatchState.Success i fname imgs path as r)) =>
      let st1 := on_batch (BatchState.update_status idx "completed" None) st in
      let st2 := on_batch (BatchState.add_result r) st1 in
      match Session.append_to_list "batch_processed_images"
              (processed_entry i fname imgs path) (session st2) with
      | Some sess => {| batch := batch st2; session := sess |}
      | None =>
          on_batch (BatchState.update_status idx "failed"
                      (Some "object has no attribute 'append'")) st2
      end
  | Got (Returned (BatchState.Failure _ _ err)) =>
      on_batch (BatchState.update_status idx "failed" (Some err)) st
  | Got (Raised msg) =>
      on_batch (BatchState.update_status idx "failed" (Some msg)) st
  | TimedOut =>
      on_batch (BatchState.update_status idx "failed" (Some (timeout_message e))) st
  end.

(** The [finally] block (lines 1519-1526), after [executor.shutdown]. *)
Definition teardown (st : state) : state :=
  {| batch := BatchState.mark_complete (batch st);
     session := Session.set "is_batch_mode" (VBool false) (session st) |}.

(** Where the thread is. *)
Inductive phase :=
  | Submitting (todo submitted : list future)   (* lines 1462-1478 *)
  | Collecting (pending : list future)          (* lines 1481-1509 *)
  | Teardown (outstanding : list future)        (* lines 1519-1522 *)
  | Finished.

Record orch := Orch {
  now : Z;
  st : state;
  ph : phase
}.

(** [t] is the earliest completion time among [l]. *)
Definition earliest_in (t : Z) (l : list future) : Prop :=
  ∀ g u, g ∈ l -> done_at g = Some u -> t <= u.

(** One step of the thread. [as_completed] yields a pending future once it
    has finished, earliest first, in any order among ties. *)
Inductive step (e : env) : orch -> orch -> Prop :=
  | step_submit n s f todo sub :
      step e (Orch n s (Submitting (f :: todo) sub))
             (Orch n (on_batch (BatchState.update_status (f_idx f) "queued" None) s)
                   (Submitting todo (sub ++ [f])))
  | step_submitted n s sub :
      step e (Orch n s (Submitting [] sub)) (Orch n s (Collecting sub))
  | step_collect n s l1 f l2 t :
      done_at f = Some t ->
      earliest_in t (l1 ++ f :: l2) ->
      step e (Orch n s (Collecting (l1 ++ f :: l2)))
             (Orch (Z.max n t) (on_future e (Z.max n t) f s) (Collecting (l1 ++ l2)))
  | step_collected n s :
      step e (Orch n s (Collecting [])) (Orch n s (Teardown []))
  | step_teardown n s out :
      Forall (fun f => is_Some (done_at f)) out ->
      step e (Orch n s (Teardown out)) (Orch n (teardown s) Finished).

(** An unexpected exception escaping the [try] body (lines 1516-1518):
    control jumps to the [finally] block with work still outstanding. *)
Inductive abort : orch -> orch -> Prop :=
  | abort_submitting n s todo sub :
      abort (Orch n s (Submitting todo sub)) (Orch n s (Teardown sub))
  | abort_collecting n s pending :
      abort (Orch n s (Collecting pending)) (Orch n s (Teardown pending)).

Definition step_or_abort (e : env) (a b : orch) : Prop :=
  step e a b ∨ abort a b.

(** The thread as started by the handler, one future per validated index. *)
Definition started (s : state) (futs : list future) : orch :=
  Orch 0 s (Submitting futs []).

(** An executable schedule of the same thread: submit everything, collect
    earliest-first (ties in submission order), tear down. [None] when a
    future never finishes and [as_completed] blocks for ever. *)
Fixpoint earliest (l : list future) : option (future * Z * list future) :=
  match l with
  | [] => None
  | f :: l' =>
      match done_at f, earliest l' with
      | Some t, Some (g, u, rest) =>
          if t <=? u then Some (f, t, l') else Some (g, u, f :: rest)
      | Some t, None => Some (f, t, l')
      | None, Some (g, u, rest) => Some (g, u, f :: rest)
      | None, None => None
      end
  end.

Fixpoint fan_in (e : env) (fuel : nat) (n : Z) (pending : list future)
    (s : state) : option (Z * state) :=
  match pending, fuel with
  | [], _ => Some (n, s)
  | _, O => None
  | _, S k =>
      match earliest pending with
      | Some (f, t, rest) =>
          fan_in e k (Z.max n t) rest (on_future e (Z.max n t) f s)
      | None => None
      end
  end.

Definition submit_all (futs : list future) (s : state) : state :=
  foldl (fun s f => on_batch (BatchState.update_status (f_idx f) "queued" None) s)
        s futs.

Definition process_batch_background (e : env) (futs : list future) (s : state)
    : option state :=
  match fan_in e (length futs) 0 futs (submit_all futs s) with
  | Some (_, s') => Some (teardown s')
  | None => None
  end.

(** *** The states the server can be in *)

(** Every way the source changes one of the two singletons:
    [parallel_batch_state.reset] is called by the submit route only; the
    other [BatchState] methods are called by the background thread, at any
    time; the session is changed by many routes, here without restriction. *)
Inductive reachable (e : env) : state -> Prop :=
  | reach_initial : reachable e initial
  | reach_submit bid req s :
      reachable e s ->
      reachable e (run_color_correction_parallel e bid req s).1.2
  | reach_update_status idx status err s :
      reachable e s ->
      reachable e (on_batch (BatchState.update_status idx status err) s)
  | reach_add_result r s :
      reachable e s ->
      reachable e (on_batch (BatchState.add_result r) s)
  | reach_mark_complete s :
      reachable e s ->
      reachable e (on_batch BatchState.mark_complete s)
  | reach_session sess s :
      reachable e s ->
      reachable e {| batch := batch s; session := sess |}.

(** Futures the thread has still to account for. *)
Definition unresolved (p : phase) : Z :=
  match p with
  | Submitting todo submitted => Z.of_nat (length todo + length submitted)
  | Collecting pending => Z.of_nat (length pending)
  | Teardown _ | Finished => 0
  end.

(** The fan-in loop has handled every future. *)
Definition fan_in_done (p : phase) : bool :=
  match p with
  | Submitting _ _ => false
  | Collecting pending => bool_decide (pending = [])
  | Teardown _ | Finished => true
  end.

(** ['batch_processed_images'] holds a list (or is absent), as in every
    session the routes build. *)
Definition processed_is_list (s : Session.t) : Prop :=
  ∃ l, Session.get "batch_processed_images" (VList []) s = VList l.

(** What every step of an undisturbed run keeps true. *)
Definition run_inv (o : orch) : Prop :=
  let b := (batch (st o)).2 in
  BatchState.completed b + BatchState.failed b + unresolved (ph o)
    = BatchState.total b
  ∧ 0 <= BatchState.completed b ∧ 0 <= BatchState.failed b
  ∧ 1 <= BatchState.total b
  ∧ (∀ todo sub, ph o = Submitting todo sub ->
       BatchState.completed b = 0 ∧ BatchState.failed b = 0)
  ∧ (BatchState.active b = false <-> ph o = Finished)
  ∧ processed_is_list (session (st o)).

(** What also survives an abort. *)
Definition abort_inv (o : orch) : Prop :=
  let b := (batch (st o)).2 in
  BatchState.completed b + BatchState.failed b + unresolved (ph o)
    <= BatchState.total b
  ∧ 0 <= BatchState.completed b ∧ 0 <= BatchState.failed b
  ∧ processed_is_list (session (st o)).

End Server.

(** ** Shutdown (lines 343-367, 1589-1662, 2329-2373) *)

Module Shutdown.

Record folders := Folders {
  UPLOAD_FOLDER : string;
  RESULTS_FOLDER : string;
  MODELS_FOLDER : string
}.

(** The defaults of lines 88-90. *)
Definition default_folders : folders :=
  {| UPLOAD_FOLDER := "uploads"; RESULTS_FOLDER := "results";
     MODELS_FOLDER := "models" |}.

(** The part of the file system the cleanup looks at: for each existing
    folder, the names of its entries. The entries stand for regular files
    that [os.remove] can delete; sub-directories with their subtrees,
    entries that are neither a file nor a directory, and a removal that
    raises are outside this model, which serves to count the calls of the
    cleanup and to compare what they leave behind. *)
Abbreviation fs := (gmap string (list string)) (only parsing).

(** One round of the loop of [cleanup_upload_folder]: every entry of an
    existing folder is removed, the folder itself is kept. *)
Definition clean_folder (d : fs) (path : string) : fs :=
  match d !! path with
  | Some _ => <[path := []]> d
  | None => d
  end.

(** [cleanup_upload_folder] (lines 343-365). *)
Definition cleanup_upload_folder (c : folders) (d : fs) : fs :=
  foldl clean_folder d [UPLOAD_FOLDER c; RESULTS_FOLDER c; MODELS_FOLDER c].

(** The process as far as shutdown is concerned. [releases] counts the
    calls of [cleanup_upload_folder] made so far; [running] is cleared by
    [os._exit]. *)
Record process := Process {
  files : fs;
  releases : nat;
  running : bool
}.

Definition release (c : folders) (p : process) : process :=
  {| files := cleanup_upload_folder c (files p);
     releases := S (releases p);
     running := running p |}.

Definition exit (p : process) : process :=
  {| files := files p; releases := releases p; running := false |}.

(** [signal_handler] (lines 2329-2373): bounded wait for the batch, cleanup,
    [os._exit(0)]. The wait only delays and logs. A process that has exited
    handles nothing. *)
Definition signal_handler (c : folders) (p : process) : process :=
  if running p then exit (release c p) else p.

(** [shutdown_server] (lines 1589-1662): bounded wait, cleanup, then a
    thread that sends SIGINT to the process itself, which runs
    [signal_handler]; when [os.kill] fails the thread exits directly.
    [between] is what requests served in the meantime do to the folders. *)
Definition shutdown_server (c : folders) (kill_ok : bool) (between : fs -> fs)
    (p : process) : process :=
  if running p then
    let p1 := release c p in
    let p2 := {| files := between (files p1); releases := releases p1;
                 running := running p1 |} in
    if kill_ok then signal_handler c p2 else exit p2
  else p.

End Shutdown.

(** ** A small running instance *)

Module Example.
Import Server.

Definition env : Server.env :=
  {| CC_AVAILABLE := true; cpu_count := 8; gpu_available := false;
     REQUEST_TIMEOUT := 300 |}.

(** One uploaded image. *)
Definition image : pyval :=
  VDict (list_to_map [("filename", VStr "a.png");
                      ("path", VStr "uploads/a.png");
                      ("preview", VStr "data:image/jpeg;base64,")]).

Definition loaded : state :=
  {| batch := batch initial;
     session := <["images" := VList [image]]> Session.init |}.

Definition request : submit_request :=
  {| image_indices := [0]; method := "pls"; max_workers := None |}.

(** The state after the batch has been admitted. *)
Definition admitted : state :=
  (run_color_correction_parallel env "batch_1" request loaded).1.2.

Definition success : outcome :=
  Returned (BatchState.Success 0 "a.png" [("a_CC", "data:image/jpeg;base64,")]
                               "uploads/a.png").

(** A worker call that returns after one second, and one that returns one
    second after the timeout of 300 seconds has passed. *)
Definition quick : future :=
  {| f_idx := 0; f_started_at := 0; f_duration := Some 1; f_outcome := success |}.

Definition slow : future :=
  {| f_idx := 0; f_started_at := 0; f_duration := Some 301; f_outcome := success |}.

End Example.

(** ** Further functions of the backend *)

(** *** The progress list as values *)

Module Progress.
Import BatchState.

(** The scan of [update_status] (lines 128-133) on the entries themselves:
    the first entry that carries the index is rewritten, then [break]. *)
Fixpoint update_first (idx : Z) (f : item -> item) (items : list item)
    : list item :=
  match items with
  | [] => []
  | it :: rest =>
      if image_index it =? idx then f it :: rest
      else it :: update_first idx f rest
  end.

(** The references of [progress] are distinct and point at dicts of the
    heap, as [reset] builds them. *)
Definition wf (w : world) : Prop :=
  NoDup (progress w.2)
  ∧ Forall (fun l => (l < length w.1)%nat) (progress w.2).

(** The two statuses the fan-in loop writes. *)
Definition terminal (st : string) : Prop :=
  st = "completed" ∨ st = "failed".

End Progress.

(** *** More of the session and of the routes *)

Module Routes.
Import Server.

(** [ThreadSafeSession.extend_list] (lines 260-265). [None] is the
    [AttributeError] raised when the stored value is not a list. *)
Definition extend_list (key : string) (values : list pyval)
    (d : gmap string pyval) : option (gmap string pyval) :=
  match Session.get key (VList []) d with
  | VList l => Some (<[key := VList (l ++ values)]> d)
  | _ => None
  end.

(** [s.split(sep)] for a one-character separator. *)
Fixpoint split_on (sep : Ascii.ascii) (s : string) : list string :=
  match s with
  | EmptyString => [EmptyString]
  | String c s' =>
      if Ascii.eqb c sep then EmptyString :: split_on sep s'
      else match split_on sep s' with
           | h :: t => String c h :: t
           | [] => [String c EmptyString]
           end
  end.

(** The prefix stripping of [decode_image] (lines 373-374) and of
    [save_single_image] (lines 2017-2018, 2273-2274):
    [if ',' in s: s = s.split(',')[1]]. *)
Definition strip_data_uri (s : string) : string :=
  match split_on ","%char s with
  | _ :: second :: _ => second
  | _ => s
  end.

(** What [encode_image] returns for the base64 text [b64] (line 402). *)
Definition data_uri (b64 : string) : string :=
  "data:image/jpeg;base64," +:+ b64.

(** [',' in s]. *)
Fixpoint has_comma (s : string) : bool :=
  match s with
  | EmptyString => false
  | String c s' => Ascii.eqb c ","%char || has_comma s'
  end.

(** [int(0.8 * cpu_count)] in binary64 and in integer arithmetic, as for the
    CPU-bound policy. *)
Definition int_0_8_times_ieee (n : Z) : option Z :=
  Workers.trunc_float (PrimFloat.mul 0x1.999999999999ap-1%float
                                     (PrimFloat.of_uint63 (Uint63.of_Z n))).

Definition int_0_8_times (n : Z) : Z := (8 * n) / 10.

(** Pool size of the two save routes (lines 2032 and 2288):
    [min(max(2, int(0.8 * cpu_count)), len(save_tasks))]. *)
Definition save_workers (cpu_count n_tasks : Z) : Z :=
  Z.min (Z.max 2 (int_0_8_times cpu_count)) n_tasks.

(** The index check of the inference-only apply (lines 1798-1803):
    [0 <= idx < len(images_list)], on [int] entries. *)
Definition apply_validated (image_indices : list Z) (num_images : Z) : list Z :=
  filter (fun idx => 0 <= idx < num_images) image_indices.

(** What the apply route hands to its executor (lines 1784-1803 and
    1886-1888): the pool is sized from [len(image_indices)], the indices as
    requested, before they are checked; one task is submitted for each index
    that passes the check. *)
Definition apply_pool (cpu_count : Z) (has_gpu : bool)
    (user_max_workers : option Z) (image_indices : list Z) (num_images : Z)
    : Z * list Z :=
  (Workers.apply_workers cpu_count has_gpu user_max_workers
     (Z.of_nat (length image_indices)),
   apply_validated image_indices num_images).

(** The image shown as the final result of the single-image route
    (lines 1107-1121). [images_dict] maps a key to an optional image; for
    each step in pipeline order the key [<img_name>_<step>] is tried, then
    the bare step name, and a hit overwrites any earlier one. *)
Section FinalImage.
Context {image : Type}.

Definition step_image (img_name : string) (images_dict : gmap string (option image))
    (step_key : string) : option image :=
  match images_dict !! (img_name +:+ "_" +:+ step_key) with
  | Some (Some img) => Some img
  | _ =>
      match images_dict !! step_key with
      | Some (Some img) => Some img
      | _ => None
      end
  end.

Definition final_corrected (img_name : string)
    (images_dict : gmap string (option image)) : option (image * string) :=
  foldl (fun final step_key =>
           match step_image img_name images_dict step_key with
           | Some img => Some (img, step_key)
           | None => final
           end)
        None ["FFC"; "GC"; "WB"; "CC"].

End FinalImage.

(** How a future ends up in the counters. *)
Definition succeeded (f : future) : bool :=
  match f_outcome f with
  | Returned (BatchState.Success _ _ _ _) => true
  | _ => false
  end.

Definition recorded_status (f : future) : string :=
  if succeeded f then "completed" else "failed".

(** The worker call returns at some time. *)
Definition finishes (f : future) : Prop := is_Some (f_duration f).

(** How many of the futures return a successful result, how many do not. *)
Definition successes (l : list future) : Z :=
  Z.of_nat (length (filter (fun f => succeeded f = true) l)).

Definition failures (l : list future) : Z :=
  Z.of_nat (length (filter (fun f => succeeded f = false) l)).

(** The entries of ['batch_processed_images']. *)
Definition processed_images (s : gmap string pyval) : list pyval :=
  match Session.get "batch_processed_images" (VList []) s with
  | VList l => l
  | _ => []
  end.

(** What handling the futures [pending] adds up to between two states of
    the fan-in loop. *)
Definition run_totals (pending : list future) (s s' : state) : Prop :=
  let b := (batch s).2 in
  let b' := (batch s').2 in
  BatchState.completed b' = BatchState.completed b + successes pending
  ∧ BatchState.failed b' = BatchState.failed b + failures pending
  ∧ Z.of_nat (length (BatchState.results b'))
    = Z.of_nat (length (BatchState.results b)) + successes pending
  ∧ BatchState.total b' = BatchState.total b
  ∧ BatchState.active b' = BatchState.active b
  ∧ BatchState.batch_id b' = BatchState.batch_id b
  ∧ processed_is_list (session s')
  ∧ Z.of_nat (length (processed_images (session s')))
    = Z.of_nat (length (processed_images (session s))) + successes pending.

End Routes.

(** * Properties *)

(** ** Worker policy *)

Section WorkerPolicy.
Import Workers.

(** The integer form of [int(0.6 * cpu_count)] is what binary64 arithmetic
    computes, for every count up to 2048. *)
Lemma int_0_6_times_is_ieee (n : Z) :
  0 <= n <= 2048 -> int_0_6_times_ieee n = Some (int_0_6_times n).
Proof.
  intros Hn.
  pose (ok := fun k : Z =>
    match int_0_6_times_ieee k with
    | Some r => r =? int_0_6_times k
    | None => false
    end).
  assert (Hall : forallb ok (seqZ 0 2049) = true) by (vm_compute; reflexivity).
  rewrite forallb_forall in Hall.
  assert (Hin : In n (seqZ 0 2049)).
  { apply list_elem_of_In, elem_of_seqZ. lia. }
  specialize (Hall n Hin). unfold ok in Hall.
  destruct (int_0_6_times_ieee n) as [r|]; [|discriminate].
  apply Z.eqb_eq in Hall. by subst.
Qed.

(** [int_0_6_times] is the floor of six tenths of its argument. *)
Lemma int_0_6_times_floor (n : Z) :
  10 * int_0_6_times n <= 6 * n < 10 * (int_0_6_times n + 1).
Proof. unfold int_0_6_times. pose proof (Z.div_mod (6 * n) 10).
       pose proof (Z.mod_pos_bound (6 * n) 10). lia. Qed.

Lemma calculate_optimal_workers_ge_1 cpus n gpu :
  1 <= n -> 1 <= calculate_optimal_workers cpus n gpu.
Proof. unfold calculate_optimal_workers. destruct gpu; lia. Qed.

Lemma calculate_optimal_workers_le_items cpus n gpu :
  calculate_optimal_workers cpus n gpu <= n.
Proof. unfold calculate_optimal_workers. destruct gpu; lia. Qed.

End WorkerPolicy.

(** C7. For an item count and a CPU count of at least one: without an
    override the GPU path gives [min(2, items)] and the CPU path gives
    [min(max(1, k), items)] where [k] is the floor of [0.6 * cpus]; with an
    override [u] the bulk batch run uses [u] clamped to [[1, min(16, items)]].
    The four sample values of the specification are included. *)
Theorem worker_policy_sizes (cpus items : Z) :
  1 <= items -> 1 <= cpus ->
  Workers.batch_workers cpus true None items = Z.min 2 items
  ∧ (∃ k, 10 * k <= 6 * cpus < 10 * (k + 1)
          ∧ Workers.batch_workers cpus false None items = Z.min (Z.max 1 k) items)
  ∧ (∀ gpu u,
        Workers.batch_workers cpus gpu (Some u) items
          = Z.max 1 (Z.min u (Z.min 16 items))
        ∧ 1 <= Workers.batch_workers cpus gpu (Some u) items <= Z.min 16 items)
  ∧ Workers.batch_workers cpus false None 1 = 1
  ∧ Workers.batch_workers cpus true None 100 = 2
  ∧ Workers.batch_workers cpus false (Some 10) 3 = 3
  ∧ Workers.batch_workers 8 false None 1000 = 4.
Proof.
  intros Hi Hc. unfold Workers.batch_workers, Workers.calculate_optimal_workers.
  repeat split; try lia.
  exists (Workers.int_0_6_times cpus).
  split; [apply int_0_6_times_floor | reflexivity].
Qed.

Lemma worker_policy_sizes_witness :
  Workers.batch_workers 8 true None 5 = Z.min 2 5
  ∧ (∃ k, 10 * k <= 6 * 8 < 10 * (k + 1)
          ∧ Workers.batch_workers 8 false None 5 = Z.min (Z.max 1 k) 5)
  ∧ (∀ gpu u,
        Workers.batch_workers 8 gpu (Some u) 5 = Z.max 1 (Z.min u (Z.min 16 5))
        ∧ 1 <= Workers.batch_workers 8 gpu (Some u) 5 <= Z.min 16 5)
  ∧ Workers.batch_workers 8 false None 1 = 1
  ∧ Workers.batch_workers 8 true None 100 = 2
  ∧ Workers.batch_workers 8 false (Some 10) 3 = 3
  ∧ Workers.batch_workers 8 false None 1000 = 4.
Proof. apply (worker_policy_sizes 8 5); lia. Defined.

(** C10. Without an override the inference-only apply sizes its pool as
    [min(2, calculate_optimal_workers(n, gpu), n)]: never more than two
    workers, and never more than the bulk batch run would use. *)
Theorem apply_workers_at_most_two (cpus items : Z) (gpu : bool) :
  Workers.apply_workers cpus gpu None items
    = Z.min 2 (Z.min (Workers.calculate_optimal_workers cpus items gpu) items)
  ∧ Workers.apply_workers cpus gpu None items <= 2
  ∧ Workers.apply_workers cpus gpu None items
      <= Workers.batch_workers cpus gpu None items.
Proof. unfold Workers.apply_workers, Workers.batch_workers. lia. Qed.

(** ** BatchState *)

Section BatchStateFacts.
Import BatchState.

(** The scan finds nothing exactly when no entry carries the index. *)
Lemma find_item_None (h : heap) (ps : list loc) (idx : Z) :
  find_item h ps idx = None
  <-> ∀ l it, l ∈ ps -> h !! l = Some it -> image_index it ≠ idx.
Proof.
  induction ps as [|l ps IH]; simpl.
  - split; [intros _ l it Hin; by apply elem_of_nil in Hin | done].
  - destruct (h !! l) as [it|] eqn:Hl.
    + destruct (image_index it =? idx) eqn:Heq.
      * split; [done|]. intros H. apply Z.eqb_eq in Heq.
        exfalso. eapply H; [left | exact Hl | exact Heq].
      * rewrite IH. apply Z.eqb_neq in Heq. split.
        -- intros H l' it' Hin Hl'. apply elem_of_cons in Hin as [->|Hin].
           ++ congruence.
           ++ by eapply H.
        -- intros H l' it' Hin. apply H. by right.
    + rewrite IH. split.
      * intros H l' it' Hin Hl'. apply elem_of_cons in Hin as [->|Hin].
        -- congruence.
        -- by eapply H.
      * intros H l' it' Hin. apply H. by right.
Qed.

(** A hit of the scan is an entry of the list that carries the index. *)
Lemma find_item_Some (h : heap) (ps : list loc) (idx : Z) (l : loc) :
  find_item h ps idx = Some l ->
  l ∈ ps ∧ ∃ it, h !! l = Some it ∧ image_index it = idx.
Proof.
  induction ps as [|l' ps IH]; simpl; [done|].
  destruct (h !! l') as [it|] eqn:Hl.
  - destruct (image_index it =? idx) eqn:Heq.
    + intros [= <-]. apply Z.eqb_eq in Heq. split; [left | eauto].
    + intros H. destruct (IH H) as [? ?]. split; [by right | done].
  - intros H. destruct (IH H) as [? ?]. split; [by right | done].
Qed.

Lemma update_status_progress idx st err (w : world) :
  progress (update_status idx st err w).2 = progress w.2.
Proof. by destruct w. Qed.

Lemma update_status_completed idx st err (w : world) :
  completed (update_status idx st err w).2
  = completed w.2 + (if String.eqb st "completed" then 1 else 0).
Proof. destruct w as [h b]; simpl. destruct (String.eqb st "completed"); lia. Qed.

Lemma update_status_failed idx st err (w : world) :
  failed (update_status idx st err w).2
  = failed w.2 + (if String.eqb st "failed" then 1 else 0).
Proof.
  destruct w as [h b]; simpl.
  destruct (String.eqb st "completed") eqn:Hc.
  - apply String.eqb_eq in Hc. subst. simpl. lia.
  - destruct (String.eqb st "failed"); lia.
Qed.

Lemma update_status_frame idx st err (w : world) :
  let b' := (update_status idx st err w).2 in
  batch_id b' = batch_id w.2 ∧ active b' = active w.2
  ∧ results b' = results w.2 ∧ total b' = total w.2.
Proof. by destruct w. Qed.

(** References handed out earlier keep pointing at the live dicts: read
    after any [update_status], an old snapshot shows the new state. *)
Lemma snapshot_follows_update idx st err (w : world) :
  snapshot_items (update_status idx st err w).1 (get_status w)
  = progress_items (update_status idx st err w).
Proof. unfold snapshot_items, progress_items. by destruct w. Qed.

End BatchStateFacts.

(** C2 (counterexample). With no entry for index 7, a call with status
    ['completed'] still moves the [completed] counter; and two calls for the
    one entry of a batch count twice. *)
Lemma update_status_counts_calls :
  let w := ([], BatchState.initial) in
  BatchState.find_item w.1 (BatchState.progress w.2) 7 = None
  ∧ BatchState.completed (BatchState.update_status 7 "completed" None w).2
      ≠ BatchState.completed w.2
  ∧ let w1 := BatchState.reset "b" 1 [0] ["a.png"] w in
    let w2 := BatchState.update_status 0 "completed" None
                (BatchState.update_status 0 "completed" None w1) in
    length (BatchState.progress w2.2) = 1%nat ∧ BatchState.completed w2.2 = 2.
Proof. vm_compute. repeat split; congruence. Qed.

(** C2 (amended). For an index that matches no entry, [update_status] leaves
    the entries and every field but the counters as they were, and with a
    status other than ['completed'] and ['failed'] it changes nothing at all.
    For an index that matches an entry, each call with ['completed'] adds one
    to [completed], each call with ['failed'] adds one to [failed], and any
    other status leaves both: the counters follow the calls. *)
Theorem update_status_unknown_and_counts (idx : Z) (st : string)
    (err : option string) (w : BatchState.world) :
  let w' := BatchState.update_status idx st err w in
  (BatchState.find_item w.1 (BatchState.progress w.2) idx = None ->
     w'.1 = w.1
     ∧ BatchState.progress w'.2 = BatchState.progress w.2
     ∧ BatchState.progress_items w' = BatchState.progress_items w
     ∧ BatchState.batch_id w'.2 = BatchState.batch_id w.2
     ∧ BatchState.active w'.2 = BatchState.active w.2
     ∧ BatchState.results w'.2 = BatchState.results w.2
     ∧ BatchState.total w'.2 = BatchState.total w.2
     ∧ (st ≠ "completed" -> st ≠ "failed" -> w' = w))
  ∧ (is_Some (BatchState.find_item w.1 (BatchState.progress w.2) idx) ->
     BatchState.completed w'.2
       = BatchState.completed w.2 + (if String.eqb st "completed" then 1 else 0)
     ∧ BatchState.failed w'.2
       = BatchState.failed w.2 + (if String.eqb st "failed" then 1 else 0)).
Proof.
  intros w'. split.
  - intros Hnone. subst w'. destruct w as [h b]; simpl in *. rewrite Hnone.
    unfold BatchState.progress_items; simpl.
    repeat split; try reflexivity.
    intros Hc Hf.
    apply String.eqb_neq in Hc, Hf. rewrite Hc, Hf. by destruct b.
  - intros _. subst w'.
    split; [apply update_status_completed | apply update_status_failed].
Qed.

Lemma update_status_unknown_and_counts_witness :
  let w := BatchState.reset "b" 2 [0; 1] ["a.png"; "b.png"] ([], BatchState.initial) in
  BatchState.update_status 5 "queued" None w = w
  ∧ BatchState.completed (BatchState.update_status 1 "completed" None w).2 = 1
  ∧ BatchState.failed (BatchState.update_status 1 "failed" (Some "boom") w).2 = 1.
Proof.
  intros w.
  pose proof (update_status_unknown_and_counts 5 "queued" None w) as [H5 _].
  pose proof (update_status_unknown_and_counts 1 "completed" None w) as [_ Hc].
  pose proof (update_status_unknown_and_counts 1 "failed" (Some "boom") w) as [_ Hf].
  split; [|split].
  - apply H5; [reflexivity | discriminate | discriminate].
  - apply Hc. by eexists.
  - apply Hf. by eexists.
Defined.

(** C6 (failing input). A batch of one item is reserved and a snapshot is
    taken; the item is then marked completed. Read again, the snapshot taken
    before shows the item as completed; and a write through the snapshot
    shows up in the batch state. *)
Theorem get_status_shares_item_dicts :
  let w0 := BatchState.reset "b" 1 [0] ["a.png"] ([], BatchState.initial) in
  let snap := BatchState.get_status w0 in
  let w1 := BatchState.update_status 0 "completed" None w0 in
  let w2 := BatchState.snapshot_set_status snap 0 "tampered" w0 in
  BatchState.snapshot_items w0.1 snap
    = [BatchState.Item 0 "a.png" "pending" None]
  ∧ BatchState.snapshot_items w1.1 snap
    = [BatchState.Item 0 "a.png" "completed" None]
  ∧ BatchState.s_completed snap = 0 ∧ BatchState.completed w1.2 = 1
  ∧ BatchState.progress_items w0 = [BatchState.Item 0 "a.png" "pending" None]
  ∧ BatchState.progress_items w2 = [BatchState.Item 0 "a.png" "tampered" None].
Proof. vm_compute. repeat split. Qed.

(** ** Session registry *)

Section SessionFacts.

(** [dict.update]: keys of the argument take the new value, the others
    keep theirs. *)
Lemma dict_update_lookup (old new : gmap string pyval) (k : string) :
  Session.dict_update old new !! k
  = match new !! k with Some v => Some v | None => old !! k end.
Proof.
  unfold Session.dict_update. rewrite lookup_union.
  destruct (new !! k), (old !! k); reflexivity.
Qed.

(** [ThreadSafeSession.update] merges one level deep: the members of the
    stored dict that the argument does not mention are kept. *)
Lemma session_update_merges (key : string) (old new : gmap string pyval)
    (d : Session.t) :
  d !! key = Some (VDict old) ->
  Session.update key (VDict new) d !! key
  = Some (VDict (Session.dict_update old new)).
Proof. intros H. unfold Session.update. rewrite H. apply lookup_insert_eq. Qed.

Lemma reset_frame (d : Session.t) (k : string) :
  k ∉ Session.reset_keys -> Session.reset d !! k = d !! k.
Proof.
  intros Hk. unfold Session.reset, Session.reset_keys in *.
  repeat (rewrite lookup_insert_ne; [|intros <-; apply Hk; set_solver]).
  reflexivity.
Qed.

End SessionFacts.

(** C8 (failing input). A session in which the [cc] stage was given
    degree 3 and a model was trained is cleared through the clear-session
    route. [reset], whose docstring says that it resets all data, assigns
    eight keys and leaves out [settings] and [cc_instance]: afterwards the
    model handle is still there, so a trained model is still reported as
    available, and the [cc] settings still carry degree 3, which is neither
    the default record (degree 2) nor an empty one. *)
Lemma clear_session_keeps_settings_and_model :
  let s0 := (Server.handle_settings "cc"
               (Server.SettingsPost (Some {[ "degree" := VInt 3 ]}))
               Session.init).2 in
  let s1 := Session.set "cc_instance" (VObj 1) s0 in
  let st := (Server.clear_session
               {| Server.batch := ([], BatchState.initial);
                  Server.session := s1 |}).2 in
  Server.model_available (Server.session st) = true
  ∧ Server.session st !! "cc_instance" = Some (VObj 1)
  ∧ (Server.stage_settings "cc" (Server.session st) ≫= (.!! "degree"))
      = Some (VInt 3)
  ∧ Session.default_cc !! "degree" = Some (VInt 2).
Proof. vm_compute. repeat split. Qed.

(** What [reset], and so the clear-session route, does in every state: it
    sets [images], [corrected_images] and [batch_processed_images] to the
    empty list, [white_image], [ccm_file], [chart_detection] and
    [last_metrics] to [None] and [is_batch_mode] to [False]. Every other key
    keeps its value: the per-stage [settings] stay as they are, and so does
    [cc_instance]. *)
Theorem session_reset_clears_eight_keys (st : Server.state) :
  let d := Server.session st in
  let d' := Server.session (Server.clear_session st).2 in
  d' = Session.reset d
  ∧ d' !! "images" = Some (VList [])
  ∧ d' !! "white_image" = Some VNone
  ∧ d' !! "ccm_file" = Some VNone
  ∧ d' !! "corrected_images" = Some (VList [])
  ∧ d' !! "chart_detection" = Some VNone
  ∧ d' !! "last_metrics" = Some VNone
  ∧ d' !! "batch_processed_images" = Some (VList [])
  ∧ d' !! "is_batch_mode" = Some (VBool false)
  ∧ d' !! "settings" = d !! "settings"
  ∧ d' !! "cc_instance" = d !! "cc_instance"
  ∧ Server.batch (Server.clear_session st).2 = Server.batch st.
Proof.
  simpl. unfold Session.reset.
  repeat split; try (by simplify_map_eq).
Qed.

(** C9. For a stage among [ffc], [gc], [wb], [cc] whose record is stored in
    the session, posting a partial record answers 200 and stores the merge:
    every key of the update has the new value, every other key of the old
    record keeps its value, and nothing else in the session changes (the
    other stages' records included). *)
Theorem settings_update_merges (step : string) (old upd : gmap string pyval)
    (s : Session.t) :
  step ∈ Server.valid_steps ->
  Server.stage_settings step s = Some old ->
  let r := Server.handle_settings step (Server.SettingsPost (Some upd)) s in
  Server.code r.1 = 200
  ∧ ∃ new, Server.stage_settings step r.2 = Some new
      ∧ Server.body r.1 !! "settings" = Some (VDict new)
      ∧ (∀ k v, upd !! k = Some v -> new !! k = Some v)
      ∧ (∀ k, upd !! k = None -> new !! k = old !! k)
      ∧ (∀ other, other ≠ step ->
           Server.stage_settings other r.2 = Server.stage_settings other s)
      ∧ (∀ key, key ≠ "settings" -> r.2 !! key = s !! key).
Proof.
  intros Hstep Hold r. subst r.
  unfold Server.handle_settings.
  rewrite (bool_decide_eq_true_2 _ Hstep). simpl.
  unfold Server.stage_settings in *.
  destruct (Session.get "settings" (VDict ∅) s) as [| | | | | |cur|] eqn:Hget;
    try discriminate.
  destruct (cur !! step) as [[| | | | | |o|]|] eqn:Hcur; try discriminate.
  injection Hold as ->. simpl.
  split; [reflexivity|].
  exists (Session.dict_update old upd).
  unfold Session.get, Session.set. rewrite lookup_insert_eq.
  rewrite lookup_insert_eq.
  split; [reflexivity|]. split; [reflexivity|].
  split; [intros k v Hk; by rewrite dict_update_lookup, Hk|].
  split; [intros k Hk; by rewrite dict_update_lookup, Hk|].
  split.
  - intros other Hne. rewrite lookup_insert_ne by done.
    unfold Session.get in Hget.
    destruct (s !! "settings") as [v|] eqn:Hs.
    + subst v. reflexivity.
    + injection Hget as <-. reflexivity.
  - intros key Hne. by rewrite lookup_insert_ne.
Qed.

Lemma settings_update_merges_witness :
  let r := Server.handle_settings "cc"
             (Server.SettingsPost (Some {[ "degree" := VInt 3 ]})) Session.init in
  Server.code r.1 = 200
  ∧ ∃ new, Server.stage_settings "cc" r.2 = Some new
      ∧ Server.body r.1 !! "settings" = Some (VDict new)
      ∧ (∀ k v, ({[ "degree" := VInt 3 ]} : gmap string pyval) !! k = Some v
                -> new !! k = Some v)
      ∧ (∀ k, ({[ "degree" := VInt 3 ]} : gmap string pyval) !! k = None
              -> new !! k = Session.default_cc !! k)
      ∧ (∀ other, other ≠ "cc" ->
           Server.stage_settings other r.2
           = Server.stage_settings other Session.init)
      ∧ (∀ key, key ≠ "settings" -> r.2 !! key = Session.init !! key).
Proof.
  apply (settings_update_merges "cc" Session.default_cc
           {[ "degree" := VInt 3 ]} Session.init).
  - unfold Server.valid_steps. set_solver.
  - reflexivity.
Defined.

(** ** Shutdown *)

Section ShutdownFacts.
Import Shutdown.

Lemma clean_folder_lookup (d : fs) (path k : string) :
  clean_folder d path !! k
  = if decide (k = path) then (fun _ => []) <$> d !! k else d !! k.
Proof.
  unfold clean_folder. case_decide as Hk.
  - subst k. destruct (d !! path) eqn:H.
    + by rewrite lookup_insert_eq.
    + by rewrite H.
  - destruct (d !! path); [by rewrite lookup_insert_ne|done].
Qed.

(** After the cleanup the three folders, where they exist, are empty, and
    nothing else has changed. *)
Lemma cleanup_upload_folder_lookup (c : folders) (d : fs) (k : string) :
  cleanup_upload_folder c d !! k
  = if bool_decide (k ∈ [UPLOAD_FOLDER c; RESULTS_FOLDER c; MODELS_FOLDER c])
    then (fun _ => []) <$> d !! k else d !! k.
Proof.
  unfold cleanup_upload_folder. simpl.
  rewrite !clean_folder_lookup.
  case_bool_decide as Hin; rewrite !elem_of_cons, elem_of_nil in Hin.
  - repeat case_decide; destruct (d !! k); try done; intuition congruence.
  - repeat case_decide; try done; intuition congruence.
Qed.

(** Cleaning what has just been cleaned changes nothing. *)
Lemma cleanup_upload_folder_idem (c : folders) (d : fs) :
  cleanup_upload_folder c (cleanup_upload_folder c d) = cleanup_upload_folder c d.
Proof.
  apply map_eq. intros k. rewrite !cleanup_upload_folder_lookup.
  case_bool_decide; [|done]. by destruct (d !! k).
Qed.

End ShutdownFacts.

(** C5 (counterexample). One shutdown requested through the API on a running
    process calls the cleanup twice: once in the route, once in the signal
    handler that the route's SIGINT starts. *)
Lemma api_shutdown_releases_twice :
  let p := {| Shutdown.files := {[ "uploads" := ["a.png"] ]};
              Shutdown.releases := 0; Shutdown.running := true |} in
  Shutdown.releases
    (Shutdown.shutdown_server Shutdown.default_folders true id p) = 2%nat.
Proof. reflexivity. Qed.

(** C5 (amended). No guard counts releases. On a running process the signal
    handler calls the cleanup once and exits; a shutdown through the API
    calls it once itself and once more in the signal handler it triggers
    (once only when sending the signal fails). After the exit nothing runs
    any more. The cleanup is idempotent in effect: unless files were added in
    between, the second call finds the folders empty and the API path leaves
    the folders exactly as the signal path does. *)
Theorem shutdown_release_counts (c : Shutdown.folders) (p : Shutdown.process)
    (between : gmap string (list string) -> gmap string (list string)) :
  Shutdown.running p = true ->
  let sig := Shutdown.signal_handler c p in
  Shutdown.releases sig = S (Shutdown.releases p)
  ∧ Shutdown.running sig = false
  ∧ Shutdown.releases (Shutdown.shutdown_server c true between p)
    = S (S (Shutdown.releases p))
  ∧ Shutdown.releases (Shutdown.shutdown_server c false between p)
    = S (Shutdown.releases p)
  ∧ Shutdown.running (Shutdown.shutdown_server c true between p) = false
  ∧ Shutdown.signal_handler c sig = sig
  ∧ Shutdown.shutdown_server c true between sig = sig
  ∧ Shutdown.files (Shutdown.shutdown_server c true id p) = Shutdown.files sig
  ∧ Shutdown.files sig = Shutdown.cleanup_upload_folder c (Shutdown.files p).
Proof.
  intros Hrun sig. subst sig.
  unfold Shutdown.shutdown_server, Shutdown.signal_handler. rewrite Hrun. simpl.
  rewrite Hrun. simpl.
  repeat split; try reflexivity.
  apply cleanup_upload_folder_idem.
Qed.

Lemma shutdown_release_counts_witness :
  let p := {| Shutdown.files := {[ "uploads" := ["a.png"] ]};
              Shutdown.releases := 0; Shutdown.running := true |} in
  Shutdown.releases (Shutdown.signal_handler Shutdown.default_folders p) = 1%nat
  ∧ Shutdown.releases
      (Shutdown.shutdown_server Shutdown.default_folders true id p) = 2%nat.
Proof.
  intros p.
  pose proof (shutdown_release_counts Shutdown.default_folders p id eq_refl)
    as (H1 & _ & H2 & _).
  split; [exact H1 | exact H2].
Defined.

(** ** Admission *)

Section Admission.
Import Server.

Lemma submit_state_cases e bid req s :
  (run_color_correction_parallel e bid req s).1.2 = s
  ∨ (CC_AVAILABLE e = true
     ∧ BatchState.is_active
         (batch (run_color_correction_parallel e bid req s).1.2) = true).
Proof.
  unfold run_color_correction_parallel.
  destruct (CC_AVAILABLE e) eqn:Hcc; simpl; [|by left].
  destruct (BatchState.is_active (batch s)); [by left|].
  destruct (Session.get "images" (VList []) (session s)) as [| | | | |l| |];
    try (by left).
  destruct l as [|img imgs]; [by left|].
  destruct (validate_indices _ _) as [|i rest] eqn:Hv; [by left|].
  destruct (validate_method (method req)) as [[|] err]; [|by left].
  destruct (int_of_max_workers (max_workers req)) as [msg|user]; [by left|].
  destruct (mapM _ _) as [fnames|]; [|by left].
  right. split; [done|]. simpl. by destruct (batch s).
Qed.

(** A batch can only be active where the pipeline library is available. *)
Lemma active_needs_pipeline e s :
  reachable e s -> BatchState.is_active (batch s) = true -> CC_AVAILABLE e = true.
Proof.
  unfold BatchState.is_active.
  induction 1 as [|bid req s Hr IH|idx status err s Hr IH|r s Hr IH|s Hr IH
                  |sess s Hr IH]; simpl.
  - discriminate.
  - destruct (submit_state_cases e bid req s) as [-> | [Hcc _]]; [exact IH | done].
  - destruct (batch s) as [h b]; simpl in *. exact IH.
  - destruct (batch s) as [h b]; simpl in *. exact IH.
  - destruct (batch s) as [h b]; simpl in *. discriminate.
  - exact IH.
Qed.
End Admission.

(** C1. In every state the server can reach, a submission that arrives while
    the batch is active is answered 409 with the id of the batch in progress,
    starts nothing, and leaves the batch state and the session exactly as
    they were. *)
Theorem submit_while_active_conflicts (e : Server.env) (bid : string)
    (req : Server.submit_request) (s : Server.state) :
  Server.reachable e s ->
  BatchState.is_active (Server.batch s) = true ->
  let r := Server.run_color_correction_parallel e bid req s in
  r = (Server.conflict (BatchState.batch_id (Server.batch s).2), s, None)
  ∧ Server.code r.1.1 = 409
  ∧ Server.body r.1.1 !! "batch_id"
    = Some (VStr (BatchState.batch_id (Server.batch s).2))
  ∧ r.1.2 = s.
Proof.
  intros Hr Hact r. subst r.
  pose proof (active_needs_pipeline e s Hr Hact) as Hcc.
  unfold Server.run_color_correction_parallel. rewrite Hcc, Hact. simpl.
  repeat split.
Qed.

Lemma submit_while_active_conflicts_witness :
  BatchState.is_active (Server.batch Example.admitted) = true
  ∧ let r := Server.run_color_correction_parallel Example.env "batch_2"
               Example.request Example.admitted in
    Server.code r.1.1 = 409
    ∧ Server.body r.1.1 !! "batch_id" = Some (VStr "batch_1")
    ∧ r.1.2 = Example.admitted.
Proof.
  split; [reflexivity|].
  assert (Hreach : Server.reachable Example.env Example.admitted).
  { apply Server.reach_submit.
    apply (Server.reach_session Example.env _ Server.initial).
    apply Server.reach_initial. }
  destruct (submit_while_active_conflicts Example.env "batch_2" Example.request
              Example.admitted Hreach eq_refl) as (_ & Hcode & Hbody & Hst).
  split; [exact Hcode|]. split; [exact Hbody | exact Hst].
Defined.

(** ** The background thread *)

Section Orchestrator.
Import Server.

Lemma batch_update_status_fields idx status err (s : state) :
  let b := (batch s).2 in
  let b' := (batch (on_batch (BatchState.update_status idx status err) s)).2 in
  BatchState.completed b'
    = BatchState.completed b + (if String.eqb status "completed" then 1 else 0)
  ∧ BatchState.failed b'
    = BatchState.failed b + (if String.eqb status "failed" then 1 else 0)
  ∧ BatchState.total b' = BatchState.total b
  ∧ BatchState.active b' = BatchState.active b
  ∧ session (on_batch (BatchState.update_status idx status err) s) = session s.
Proof.
  simpl. rewrite update_status_completed, update_status_failed.
  destruct (update_status_frame idx status err (batch s)) as (_ & ? & _ & ?).
  done.
Qed.

Lemma batch_add_result_fields r (s : state) :
  let b := (batch s).2 in
  let b' := (batch (on_batch (BatchState.add_result r) s)).2 in
  BatchState.completed b' = BatchState.completed b
  ∧ BatchState.failed b' = BatchState.failed b
  ∧ BatchState.total b' = BatchState.total b
  ∧ BatchState.active b' = BatchState.active b.
Proof. simpl. by destruct (batch s). Qed.

Lemma append_processed_is_list (v : pyval) (s : Session.t) :
  processed_is_list s ->
  ∃ s', Session.append_to_list "batch_processed_images" v s = Some s'
        ∧ processed_is_list s'.
Proof.
  intros [l Hl]. unfold Session.append_to_list. rewrite Hl.
  eexists; split; [reflexivity|].
  exists (l ++ [v]). unfold Session.get. by rewrite lookup_insert_eq.
Qed.

(** A future that [as_completed] has yielded answers [result] at once,
    however long it ran and whatever the timeout is. *)
Lemma collected_future_never_times_out (n t timeout : Z) (f : future) :
  done_at f = Some t ->
  future_result (Z.max n t) timeout f = Got (f_outcome f).
Proof.
  intros Hd. unfold future_result. rewrite Hd.
  assert ((t <=? Z.max n t) = true) as -> by (apply Z.leb_le; lia).
  reflexivity.
Qed.

(** One round of the fan-in loop resolves one future: exactly one of the
    two counters goes up by one. *)
Lemma on_future_counts (e : env) (n t : Z) (f : future) (s : state) :
  done_at f = Some t ->
  processed_is_list (session s) ->
  let s' := on_future e (Z.max n t) f s in
  let b := (batch s).2 in
  let b' := (batch s').2 in
  BatchState.completed b' + BatchState.failed b'
    = BatchState.completed b + BatchState.failed b + 1
  ∧ BatchState.completed b <= BatchState.completed b'
  ∧ BatchState.failed b <= BatchState.failed b'
  ∧ BatchState.total b' = BatchState.total b
  ∧ BatchState.active b' = BatchState.active b
  ∧ processed_is_list (session s').
Proof.
  intros Hd Hlist. unfold on_future.
  rewrite (collected_future_never_times_out n t _ f Hd).
  destruct (f_outcome f) as [[i fname imgs path|i fname err]|msg].
  - set (s1 := on_batch (BatchState.update_status (f_idx f) "completed" None) s).
    set (s2 := on_batch (BatchState.add_result _) s1).
    destruct (batch_update_status_fields (f_idx f) "completed" None s)
      as (Hc & Hf & Ht & Ha & Hs).
    destruct (batch_add_result_fields
                (BatchState.Success i fname imgs path) s1) as (Hc2 & Hf2 & Ht2 & Ha2).
    fold s1 in Hc, Hf, Ht, Ha, Hs. fold s2 in Hc2, Hf2, Ht2, Ha2.
    assert (Hl2 : processed_is_list (session s2)) by (simpl; exact Hlist).
    destruct (append_processed_is_list (processed_entry i fname imgs path) _ Hl2)
      as (sess & -> & Hl3).
    simpl in *. rewrite Hc2, Hf2, Ht2, Ha2, Hc, Hf, Ht, Ha. simpl.
    repeat split; try lia; done.
  - destruct (batch_update_status_fields (f_idx f) "failed" (Some err) s)
      as (Hc & Hf & Ht & Ha & Hs).
    simpl in *. rewrite Hc, Hf, Ht, Ha. simpl. repeat split; try lia; done.
  - destruct (batch_update_status_fields (f_idx f) "failed" (Some msg) s)
      as (Hc & Hf & Ht & Ha & Hs).
    simpl in *. rewrite Hc, Hf, Ht, Ha. simpl. repeat split; try lia; done.
Qed.

Lemma step_run_inv e o o' : step e o o' -> run_inv o -> run_inv o'.
Proof.
  unfold run_inv.
  destruct 1 as [n s f todo sub|n s sub|n s l1 f l2 t Hd Hmin|n s|n s out Hout];
    simpl; intros (Hsum & Hc & Hf & Ht & Hsub & Hact & Hl).
  - destruct (batch_update_status_fields (f_idx f) "queued" None s)
      as (Hc' & Hf' & Ht' & Ha' & Hs'). simpl in *.
    rewrite Hc', Hf', Ht', Ha'. simpl.
    rewrite length_app in *. simpl in *.
    destruct (Hsub _ _ eq_refl) as [Hc0 Hf0].
    repeat split; try lia; try done.
    + intros H. apply Hact in H. discriminate.
  - repeat split; try lia; try done.
    + intros H. apply Hact in H. discriminate.
  - destruct (on_future_counts e n t f s Hd Hl) as (Hs' & Hc' & Hf' & Ht' & Ha' & Hl').
    simpl in *. rewrite Ht', Ha'. rewrite !length_app in *. simpl in *.
    repeat split; try lia; try done.
    + intros H. apply Hact in H. discriminate.
  - repeat split; try lia; try done.
    + intros H. apply Hact in H. discriminate.
  - destruct (batch s) as [h b] eqn:Hb. simpl in *.
    repeat split; try lia; try done.
    destruct Hl as [l Hl]. exists l. unfold Session.get, Session.set in *.
    by rewrite lookup_insert_ne.
Qed.

Lemma step_abort_inv e o o' : step_or_abort e o o' -> abort_inv o -> abort_inv o'.
Proof.
  unfold abort_inv.
  intros [Hstep|Habort].
  - destruct Hstep as [n s f todo sub|n s sub|n s l1 f l2 t Hd Hmin|n s|n s out Hout];
      simpl; intros (Hsum & Hc & Hf & Hl).
    + destruct (batch_update_status_fields (f_idx f) "queued" None s)
        as (Hc' & Hf' & Ht' & Ha' & Hs'). simpl in *.
      rewrite Hc', Hf', Ht'. simpl. rewrite length_app in *. simpl in *.
      repeat split; try lia; done.
    + repeat split; try lia; done.
    + destruct (on_future_counts e n t f s Hd Hl)
        as (Hs' & Hc' & Hf' & Ht' & Ha' & Hl').
      simpl in *. rewrite Ht'. rewrite !length_app in *. simpl in *.
      repeat split; try lia; done.
    + repeat split; try lia; done.
    + destruct (batch s) as [h b] eqn:Hb. simpl in *.
      repeat split; try lia.
      destruct Hl as [l Hl]. exists l. unfold Session.get, Session.set in *.
      by rewrite lookup_insert_ne.
  - destruct Habort as [n s todo sub|n s pending]; simpl;
      intros (Hsum & Hc & Hf & Hl); repeat split; try lia; done.
Qed.

Lemma started_run_inv bid idxs fnames w0 sess futs :
  idxs ≠ [] -> length futs = length idxs -> processed_is_list sess ->
  run_inv (started {| batch := BatchState.reset bid (Z.of_nat (length idxs))
                                 idxs fnames w0;
                      session := sess |} futs).
Proof.
  intros Hne Hlen Hl. unfold run_inv, started. destruct w0 as [h b0]. simpl.
  rewrite Hlen. destruct idxs; [done|]. simpl length.
  repeat split; try lia; try done.
Qed.

Lemma run_inv_abort_inv o : run_inv o -> abort_inv o.
Proof. unfold run_inv, abort_inv. intros (? & ? & ? & ? & ? & ? & ?).
       repeat split; try lia; done. Qed.

End Orchestrator.

Section Schedule.
Import Server.

Lemma rtc_preserves {A} (R : relation A) (P : A -> Prop) (a b : A) :
  (∀ x y, R x y -> P x -> P y) -> rtc R a b -> P a -> P b.
Proof. intros Hstep. induction 1; eauto. Qed.

Lemma earliest_None (l : list future) :
  earliest l = None -> ∀ g, g ∈ l -> done_at g = None.
Proof.
  induction l as [|f l IH]; simpl; [intros _ g Hg; by apply elem_of_nil in Hg|].
  destruct (done_at f) as [t|] eqn:Hf, (earliest l) as [[[g u] rest]|] eqn:He;
    try discriminate.
  - destruct (t <=? u); discriminate.
  - intros _ g Hg. apply elem_of_cons in Hg as [->|Hg]; [done | by apply IH].
Qed.

(** [earliest] picks a finished future none of the others precedes. *)
Lemma earliest_Some (l : list future) f t rest :
  earliest l = Some (f, t, rest) ->
  ∃ l1 l2, l = l1 ++ f :: l2 ∧ rest = l1 ++ l2
           ∧ done_at f = Some t ∧ earliest_in t l.
Proof.
  revert f t rest. induction l as [|h l IH]; simpl; [done|]. intros f t rest.
  destruct (done_at h) as [th|] eqn:Hh, (earliest l) as [[[g u] r]|] eqn:He.
  - destruct (IH g u r eq_refl) as (l1 & l2 & -> & -> & Hg & Hmin).
    destruct (th <=? u) eqn:Hle; intros [= <- <- <-].
    + apply Z.leb_le in Hle. exists [], (l1 ++ g :: l2).
      repeat split; [done|].
      intros x v Hx Hv. apply elem_of_cons in Hx as [->|Hx].
      * rewrite Hh in Hv. injection Hv as <-. lia.
      * specialize (Hmin x v Hx Hv). lia.
    + apply Z.leb_gt in Hle. exists (h :: l1), l2.
      repeat split; [done|].
      intros x v Hx Hv. apply elem_of_cons in Hx as [->|Hx].
      * rewrite Hh in Hv. injection Hv as <-. lia.
      * by apply (Hmin x v).
  - intros [= <- <- <-]. exists [], l. repeat split; [done|].
    intros x v Hx Hv. apply elem_of_cons in Hx as [->|Hx].
    + rewrite Hh in Hv. injection Hv as <-. lia.
    + rewrite (earliest_None l He x Hx) in Hv. discriminate.
  - destruct (IH g u r eq_refl) as (l1 & l2 & -> & -> & Hg & Hmin).
    intros [= <- <- <-]. exists (h :: l1), l2. repeat split; [done|].
    intros x v Hx Hv. apply elem_of_cons in Hx as [->|Hx].
    + rewrite Hh in Hv. discriminate.
    + by apply (Hmin x v).
  - discriminate.
Qed.

Lemma submit_all_steps e n futs s sub :
  rtc (step e) (Orch n s (Submitting futs sub))
               (Orch n (submit_all futs s) (Submitting [] (sub ++ futs))).
Proof.
  revert s sub. induction futs as [|f futs IH]; intros s sub; simpl.
  - rewrite app_nil_r. apply rtc_refl.
  - eapply rtc_l; [apply step_submit|].
    replace (sub ++ f :: futs) with ((sub ++ [f]) ++ futs)
      by (by rewrite <- app_assoc).
    apply IH.
Qed.

Lemma fan_in_steps e fuel n pending s n' s' :
  fan_in e fuel n pending s = Some (n', s') ->
  rtc (step e) (Orch n s (Collecting pending)) (Orch n' s' (Collecting [])).
Proof.
  revert n pending s. induction fuel as [|k IH]; intros n pending s.
  - destruct pending; simpl; [|discriminate].
    intros [= <- <-]. apply rtc_refl.
  - destruct pending as [|p pending]; cbn [fan_in].
    + intros [= <- <-]. apply rtc_refl.
    + destruct (earliest (p :: pending)) as [[[f t] rest]|] eqn:He;
        [|discriminate].
      destruct (earliest_Some (p :: pending) f t rest) as (l1 & l2 & Hl & -> & Hd & Hmin);
        [exact He|].
      intros Hrun. rewrite Hl.
      eapply rtc_l; [apply (step_collect e n s l1 f l2 t Hd); by rewrite <- Hl|].
      by apply IH.
Qed.

(** A result of the executable schedule is the end of a run of the thread. *)
Lemma process_batch_background_run e futs s s' :
  process_batch_background e futs s = Some s' ->
  ∃ n, rtc (step e) (started s futs) (Orch n s' Finished).
Proof.
  unfold process_batch_background, started.
  destruct (fan_in e (length futs) 0 futs (submit_all futs s)) as [[n s1]|] eqn:Hf;
    [|discriminate].
  intros [= <-]. exists n.
  etrans; [apply (submit_all_steps e 0 futs s [])|]. simpl.
  eapply rtc_l; [apply step_submitted|].
  etrans; [apply (fan_in_steps _ _ _ _ _ _ _ Hf)|].
  eapply rtc_l; [apply step_collected|].
  eapply rtc_l; [apply step_teardown; constructor|].
  apply rtc_refl.
Qed.

End Schedule.

(** C3 (counterexample). A batch of one item: once the item has been
    collected, [completed + failed = total] holds while the batch is still
    active, since [mark_complete] has not run yet. *)
Lemma counters_full_while_active :
  ∃ o, rtc (Server.step Example.env)
           (Server.started Example.admitted [Example.quick]) o
       ∧ let b := (Server.batch (Server.st o)).2 in
         BatchState.completed b + BatchState.failed b = BatchState.total b
         ∧ BatchState.active b = true.
Proof.
  eexists. split.
  - eapply rtc_l; [apply Server.step_submit|].
    eapply rtc_l; [apply Server.step_submitted|].
    eapply rtc_l.
    { apply (Server.step_collect Example.env _ _ [] Example.quick [] 1).
      - reflexivity.
      - intros g u Hg Hu. apply list_elem_of_singleton in Hg as ->.
        injection Hu as <-. lia. }
    apply rtc_refl.
  - split; reflexivity.
Qed.

(** C3 (amended). For a batch reserved by [reset] with one future per
    admitted index: in every state the thread can reach, also after an abort,
    [completed + failed <= total]. In a run that is not aborted,
    [completed + failed = total] holds exactly when the fan-in loop has
    handled every future, which is the case from the end of the loop on
    (with [active] still true until [mark_complete] runs); [active] is false
    exactly when the thread has finished, and then the sum equals [total]. *)
Theorem batch_counters_bounded (e : Server.env) (bid : string) (idxs : list Z)
    (fnames : list string) (w0 : BatchState.world) (sess : gmap string pyval)
    (futs : list Server.future) :
  idxs ≠ [] -> length futs = length idxs -> Server.processed_is_list sess ->
  let s0 := {| Server.batch :=
                 BatchState.reset bid (Z.of_nat (length idxs)) idxs fnames w0;
               Server.session := sess |} in
  (∀ o, rtc (Server.step_or_abort e) (Server.started s0 futs) o ->
        let b := (Server.batch (Server.st o)).2 in
        BatchState.completed b + BatchState.failed b <= BatchState.total b)
  ∧ (∀ o, rtc (Server.step e) (Server.started s0 futs) o ->
        let b := (Server.batch (Server.st o)).2 in
        (BatchState.completed b + BatchState.failed b = BatchState.total b
           <-> Server.fan_in_done (Server.ph o) = true)
        ∧ (BatchState.active b = false <-> Server.ph o = Server.Finished)
        ∧ (BatchState.active b = false ->
           BatchState.completed b + BatchState.failed b = BatchState.total b)).
Proof.
  intros Hne Hlen Hl s0.
  pose proof (started_run_inv bid idxs fnames w0 sess futs Hne Hlen Hl) as H0.
  fold s0 in H0. split.
  - intros o Hrun.
    assert (Hinv : Server.abort_inv o).
    { eapply (rtc_preserves _ Server.abort_inv); [|exact Hrun|].
      - intros x y. apply step_abort_inv.
      - by apply run_inv_abort_inv. }
    destruct Hinv as (Hsum & _ & _ & _). simpl.
    assert (0 <= Server.unresolved (Server.ph o))
      by (destruct (Server.ph o); simpl; lia).
    lia.
  - intros o Hrun.
    assert (Hinv : Server.run_inv o).
    { eapply (rtc_preserves _ Server.run_inv); [|exact Hrun|exact H0].
      intros x y. apply step_run_inv. }
    destruct Hinv as (Hsum & Hc & Hf & Ht & Hsub & Hact & _). simpl in *.
    assert (Hdone : BatchState.completed (Server.batch (Server.st o)).2
                    + BatchState.failed (Server.batch (Server.st o)).2
                    = BatchState.total (Server.batch (Server.st o)).2
                    <-> Server.fan_in_done (Server.ph o) = true).
    { destruct (Server.ph o) as [todo sub|pending| |] eqn:Hph; simpl in *.
      - destruct (Hsub _ _ eq_refl). split; [lia | discriminate].
      - rewrite bool_decide_eq_true. destruct pending; simpl in *.
        + split; [done | lia].
        + split; [lia | discriminate].
      - split; [done | lia].
      - split; [done | lia]. }
    split; [exact Hdone|]. split; [exact Hact|].
    intros Ha. apply Hdone. apply Hact in Ha. by rewrite Ha.
Qed.

Lemma batch_counters_bounded_witness :
  let o := Server.started Example.admitted [Example.quick] in
  let b := (Server.batch (Server.st o)).2 in
  BatchState.completed b + BatchState.failed b <= BatchState.total b.
Proof.
  assert (H1 : [0] ≠ ([] : list Z)) by discriminate.
  assert (H2 : length [Example.quick] = length [0]) by reflexivity.
  assert (H3 : Server.processed_is_list
                 (Session.set "is_batch_mode" (VBool true)
                              (Server.session Example.loaded))).
  { exists []. reflexivity. }
  destruct (batch_counters_bounded Example.env "batch_1" [0] ["a.png"]
              ([], BatchState.initial) _ [Example.quick] H1 H2 H3) as [Hle _].
  apply (Hle (Server.started Example.admitted [Example.quick])).
  apply rtc_refl.
Defined.

(** C4 (failing input). A batch of one item whose worker call returns
    successfully after 301 seconds, with the timeout at 300 seconds: the
    thread runs to its end, the item is recorded as completed with no error
    and nothing is counted as failed. *)
Theorem slow_item_is_recorded_completed :
  Server.done_at Example.slow = Some (Server.REQUEST_TIMEOUT Example.env + 1)
  ∧ ∃ final,
      Server.process_batch_background Example.env [Example.slow] Example.admitted
        = Some final
      ∧ BatchState.progress_items (Server.batch final)
        = [BatchState.Item 0 "a.png" "completed" None]
      ∧ BatchState.completed (Server.batch final).2 = 1
      ∧ BatchState.failed (Server.batch final).2 = 0
      ∧ BatchState.active (Server.batch final).2 = false.
Proof.
  split; [reflexivity|].
  eexists. split; [reflexivity|].
  repeat split.
Qed.

(** * Further properties *)

(** ** The progress list as values *)

Section ProgressFacts.
Import BatchState Progress.

Lemma deref_cons (h : list item) (l : nat) (ps : list nat) :
  deref h (l :: ps)
  = match h !! l with
    | Some it => it :: deref h ps
    | None => deref h ps
    end.
Proof. reflexivity. Qed.

Lemma find_item_cons (h : list item) (l : nat) (ps : list nat) (idx : Z) :
  find_item h (l :: ps) idx
  = match h !! l with
    | Some it => if image_index it =? idx then Some l else find_item h ps idx
    | None => find_item h ps idx
    end.
Proof. reflexivity. Qed.

Lemma deref_alter_notin (f : item -> item) (h : list item) (l : nat)
    (ps : list nat) :
  l ∉ ps -> deref (alter f l h) ps = deref h ps.
Proof.
  induction ps as [|l' ps IH]; [done|].
  intros Hnot. apply not_elem_of_cons in Hnot as [Hne Hnot].
  rewrite !deref_cons. rewrite list_lookup_alter_ne by done. by rewrite IH.
Qed.

Lemma update_first_no_match idx f (items : list item) :
  (∀ it, it ∈ items -> image_index it ≠ idx) -> update_first idx f items = items.
Proof.
  induction items as [|it items IH]; simpl; [done|]. intros H.
  destruct (image_index it =? idx) eqn:E.
  - apply Z.eqb_eq in E. exfalso. apply (H it); [left | done].
  - rewrite IH; [done|]. intros it' Hin. apply H. by right.
Qed.

(** On a well-formed progress list the heap-level scan of [update_status]
    is the value-level one. *)
Lemma deref_update_scan (f : item -> item) (h : list item) (ps : list nat)
    (idx : Z) :
  NoDup ps -> Forall (fun l => (l < length h)%nat) ps ->
  deref (match find_item h ps idx with
         | Some l => alter f l h
         | None => h
         end) ps
  = update_first idx f (deref h ps).
Proof.
  intros Hnd Hval. induction ps as [|l ps IH]; [done|].
  apply NoDup_cons in Hnd as [Hnot Hnd].
  apply Forall_cons in Hval as [Hl Hval].
  destruct (lookup_lt_is_Some_2 h l Hl) as [it Hit].
  rewrite find_item_cons, (deref_cons h l ps), Hit.
  cbn [update_first].
  destruct (image_index it =? idx) eqn:E.
  - rewrite deref_cons, list_lookup_alter_eq, Hit. cbn [fmap option_fmap option_map].
    by rewrite deref_alter_notin.
  - specialize (IH Hnd Hval).
    destruct (find_item h ps idx) as [l'|] eqn:Hfind.
    + destruct (find_item_Some h ps idx l' Hfind) as [Hin _].
      assert (l' ≠ l) by (intros ->; done).
      rewrite deref_cons, list_lookup_alter_ne, Hit by done. by rewrite IH.
    + rewrite deref_cons, Hit. by rewrite <- IH.
Qed.

Lemma update_status_wf idx st err (w : world) : wf w -> wf (update_status idx st err w).
Proof.
  destruct w as [h b]. unfold wf. simpl. intros [Hnd Hval]. split; [done|].
  destruct (find_item h (progress b) idx); [|done].
  eapply Forall_impl; [exact Hval|]. intros l0 Hl0. simpl.
  unfold loc, heap in *. by rewrite length_alter.
Qed.

Lemma update_status_items idx st err (w : world) :
  wf w ->
  progress_items (update_status idx st err w)
  = update_first idx (set_status st err) (progress_items w).
Proof.
  destruct w as [h b]. unfold wf, progress_items. simpl. intros [Hnd Hval].
  by apply deref_update_scan.
Qed.

Lemma add_result_items r (w : world) :
  progress_items (add_result r w) = progress_items w ∧ (wf w -> wf (add_result r w)).
Proof. by destruct w. Qed.

Lemma mark_complete_items (w : world) :
  progress_items (mark_complete w) = progress_items w
  ∧ (wf w -> wf (mark_complete w)).
Proof. by destruct w. Qed.

Lemma deref_fresh (h fresh : list item) :
  deref (h ++ fresh) (seq (length h) (length fresh)) = fresh.
Proof.
  revert h. induction fresh as [|x fresh IH]; intros h; [done|].
  simpl length. simpl seq. rewrite deref_cons.
  rewrite lookup_app_r by lia. rewrite Nat.sub_diag. simpl.
  specialize (IH (h ++ [x])). rewrite <- app_assoc in IH. simpl in IH.
  rewrite length_app in IH. simpl in IH. rewrite Nat.add_1_r in IH.
  by rewrite IH.
Qed.

Lemma reset_wf bid tot idxs fnames (w : world) : wf (reset bid tot idxs fnames w).
Proof.
  destruct w as [h b]. unfold wf. simpl. split; [apply NoDup_seq|].
  apply Forall_forall. intros l Hl. apply elem_of_seq in Hl.
  rewrite length_app. lia.
Qed.

Lemma reset_items bid tot idxs fnames (w : world) :
  progress_items (reset bid tot idxs fnames w)
  = (fun p : Z * string => Item p.1 p.2 "pending" None) <$> zip idxs fnames.
Proof. destruct w as [h b]. unfold progress_items. simpl. apply deref_fresh. Qed.

Lemma update_first_indices idx f (items : list item) :
  (∀ it, image_index (f it) = image_index it) ->
  image_index <$> update_first idx f items = image_index <$> items.
Proof.
  intros Hf. induction items as [|it items IH]; [done|].
  cbn [update_first].
  destruct (image_index it =? idx); rewrite !fmap_cons;
    [by rewrite Hf | by rewrite IH].
Qed.

(** With distinct indices, what [update_first] returns is the old list with
    the one entry of that index rewritten. *)
Lemma update_first_elem idx f (items : list item) (it' : item) :
  NoDup (image_index <$> items) ->
  it' ∈ update_first idx f items ->
  (it' ∈ items ∧ image_index it' ≠ idx)
  ∨ (∃ it, it ∈ items ∧ image_index it = idx ∧ it' = f it).
Proof.
  induction items as [|it items IH]; simpl; [intros _ H; by apply elem_of_nil in H|].
  intros Hnd. apply NoDup_cons in Hnd as [Hnot Hnd].
  destruct (image_index it =? idx) eqn:E.
  - apply Z.eqb_eq in E. intros Hin. apply elem_of_cons in Hin as [->|Hin].
    + right. exists it. split; [left | done].
    + left. split; [by right|]. intros Heq. apply Hnot.
      rewrite E, <- Heq. apply list_elem_of_fmap. by exists it'.
  - apply Z.eqb_neq in E. intros Hin. apply elem_of_cons in Hin as [->|Hin].
    + left. split; [left | done].
    + destruct (IH Hnd Hin) as [[? ?]|(it0 & ? & ? & ?)].
      * left. split; [by right | done].
      * right. exists it0. split; [by right | done].
Qed.

End ProgressFacts.

(** X1. On a progress list whose references are distinct and valid,
    [update_status] rewrites the first entry that carries the index and no
    other: that entry gets the new status, keeps its index and file name,
    and has its error replaced only by a non-empty error; an update without
    an error leaves a recorded error in place. *)
Theorem update_status_rewrites_first_match (idx : Z) (st : string)
    (err : option string) (w : BatchState.world) :
  Progress.wf w ->
  BatchState.progress_items (BatchState.update_status idx st err w)
    = Progress.update_first idx (BatchState.set_status st err)
        (BatchState.progress_items w)
  ∧ Progress.wf (BatchState.update_status idx st err w)
  ∧ (∀ it, let it' := BatchState.set_status st err it in
       BatchState.image_index it' = BatchState.image_index it
       ∧ BatchState.filename it' = BatchState.filename it
       ∧ BatchState.status it' = st
       ∧ BatchState.error it'
         = match err with
           | Some e => if String.eqb e "" then BatchState.error it else Some e
           | None => BatchState.error it
           end).
Proof.
  intros Hwf. split; [by apply update_status_items|].
  split; [by apply update_status_wf|].
  intros it. simpl. repeat split.
  destruct err as [e|]; simpl; [|done]. by destruct (String.eqb e "").
Qed.

Lemma update_status_rewrites_first_match_witness :
  let w := BatchState.reset "b" 2 [4; 4] ["a.png"; "b.png"] ([], BatchState.initial) in
  BatchState.progress_items (BatchState.update_status 4 "failed" (Some "boom") w)
  = [BatchState.Item 4 "a.png" "failed" (Some "boom");
     BatchState.Item 4 "b.png" "pending" None].
Proof.
  intros w.
  destruct (update_status_rewrites_first_match 4 "failed" (Some "boom") w
              (reset_wf "b" 2 [4; 4] ["a.png"; "b.png"] ([], BatchState.initial)))
    as [H _].
  rewrite H. reflexivity.
Defined.

(** X2. [reset] installs one fresh ['pending'] entry without error per pair
    of [zip(image_indices, filenames)] (so as many as the shorter list),
    clears the counters and the results and turns the batch active; the
    entries are new dicts, so what a snapshot taken before the reset shows
    does not change. *)
Theorem reset_installs_pending_entries (bid : string) (tot : Z) (idxs : list Z)
    (fnames : list string) (w : BatchState.world) :
  Progress.wf w ->
  let w' := BatchState.reset bid tot idxs fnames w in
  BatchState.progress_items w'
    = (fun p : Z * string => BatchState.Item p.1 p.2 "pending" None)
      <$> zip idxs fnames
  ∧ length (BatchState.progress w'.2) = Nat.min (length idxs) (length fnames)
  ∧ BatchState.batch_id w'.2 = bid ∧ BatchState.active w'.2 = true
  ∧ BatchState.total w'.2 = tot
  ∧ BatchState.completed w'.2 = 0 ∧ BatchState.failed w'.2 = 0
  ∧ BatchState.results w'.2 = []
  ∧ Progress.wf w'
  ∧ BatchState.snapshot_items w'.1 (BatchState.get_status w)
    = BatchState.snapshot_items w.1 (BatchState.get_status w).
Proof.
  intros Hwf w'. subst w'.
  split; [apply reset_items|].
  destruct w as [h b]. simpl.
  split; [by rewrite length_seq, length_fmap, length_zip|].
  repeat split; try apply (reset_wf bid tot idxs fnames (h, b)).
  unfold BatchState.snapshot_items. simpl.
  destruct Hwf as [_ Hval]. simpl in Hval.
  induction Hval as [|l ps Hl _ IH]; [done|].
  rewrite !deref_cons. rewrite lookup_app_l by done. by rewrite IH.
Qed.

Lemma reset_installs_pending_entries_witness :
  BatchState.progress_items
    (BatchState.reset "b" 3 [7; 8; 9] ["a.png"; "b.png"] ([], BatchState.initial))
  = [BatchState.Item 7 "a.png" "pending" None;
     BatchState.Item 8 "b.png" "pending" None].
Proof.
  assert (Hwf : Progress.wf ([], BatchState.initial)).
  { split; [apply NoDup_nil_2 | apply Forall_nil_2]. }
  destruct (reset_installs_pending_entries "b" 3 [7; 8; 9] ["a.png"; "b.png"]
              ([], BatchState.initial) Hwf) as [H _].
  exact H.
Defined.

(** ** More on admission *)

Section AdmissionFacts.
Import Server.

Lemma validate_image_index_true (i n : Z) :
  (validate_image_index i n).1 = true <-> 0 <= i < n.
Proof.
  unfold validate_image_index.
  destruct (i <? 0) eqn:E1, (n <=? i) eqn:E2; simpl;
    rewrite ?Z.ltb_lt, ?Z.ltb_ge, ?Z.leb_le, ?Z.leb_gt in *;
    split; (lia || done).
Qed.

Lemma validate_indices_spec (indices : list Z) (n : Z) :
  validate_indices indices n = filter (fun i => 0 <= i < n) indices.
Proof.
  unfold validate_indices. apply list_filter_iff. intros i.
  apply validate_image_index_true.
Qed.

Lemma batch_workers_range cpus gpu o n :
  1 <= n -> 1 <= Workers.batch_workers cpus gpu o n <= n.
Proof.
  intros Hn. unfold Workers.batch_workers, Workers.calculate_optimal_workers.
  destruct o; [lia|]. destruct gpu; lia.
Qed.

(** What an answer 202 of the submit route implies. *)
Lemma submit_accepted e bid req s :
  code (run_color_correction_parallel e bid req s).1.1 = 202 ->
  ∃ images filenames user,
    let valid := validate_indices (image_indices req) (Z.of_nat (length images)) in
    let n := Z.of_nat (length valid) in
    let workers := Workers.batch_workers (cpu_count e) (gpu_available e) user n in
    CC_AVAILABLE e = true
    ∧ int_of_max_workers (max_workers req) = inr user
    ∧ BatchState.is_active (batch s) = false
    ∧ Session.get "images" (VList []) (session s) = VList images
    ∧ valid ≠ []
    ∧ (validate_method (method req)).1 = true
    ∧ mapM (fun i => images !! Z.to_nat i ≫= image_field "filename") valid
      = Some filenames
    ∧ run_color_correction_parallel e bid req s
      = (accepted bid n workers (gpu_available e),
         {| batch := BatchState.reset bid n valid filenames (batch s);
            session := Session.set "is_batch_mode" (VBool true) (session s) |},
         Some {| sp_batch_id := bid; sp_indices := valid; sp_workers := workers |}).
Proof.
  unfold run_color_correction_parallel.
  destruct (CC_AVAILABLE e) eqn:Hcc; simpl; [|discriminate].
  destruct (BatchState.is_active (batch s)) eqn:Hact; [discriminate|].
  destruct (Session.get "images" (VList []) (session s)) as [| | | | |l| |] eqn:Himg;
    try discriminate.
  destruct l as [|img imgs]; [discriminate|].
  destruct (validate_indices _ _) as [|i rest] eqn:Hv; [discriminate|].
  destruct (validate_method (method req)) as [[|] err] eqn:Hm; [|discriminate].
  destruct (int_of_max_workers (max_workers req)) as [msg|user] eqn:Hmw;
    [discriminate|].
  destruct (mapM _ _) as [fnames|] eqn:Hmap; [|discriminate].
  intros _. exists (img :: imgs), fnames, user. cbv zeta. rewrite Hv, Hmap.
  repeat split; done.
Qed.

(** Every other answer leaves everything as it was. *)
Lemma submit_rejected e bid req s :
  code (run_color_correction_parallel e bid req s).1.1 ≠ 202 ->
  (run_color_correction_parallel e bid req s).1.2 = s
  ∧ (run_color_correction_parallel e bid req s).2 = None
  ∧ code (run_color_correction_parallel e bid req s).1.1 ∈ [503; 409; 400; 500].
Proof.
  unfold run_color_correction_parallel.
  destruct (CC_AVAILABLE e) eqn:Hcc; simpl; [|intros _; set_solver].
  destruct (BatchState.is_active (batch s)) eqn:Hact; [intros _; set_solver|].
  destruct (Session.get "images" (VList []) (session s)) as [| | | | |l| |] eqn:Himg;
    try (intros _; simpl; set_solver).
  destruct l as [|img imgs]; [intros _; set_solver|].
  destruct (validate_indices _ _) as [|i rest] eqn:Hv; [intros _; set_solver|].
  destruct (validate_method (method req)) as [[|] err] eqn:Hm;
    [|intros _; simpl; set_solver].
  destruct (int_of_max_workers (max_workers req)) as [msg|user] eqn:Hmw;
    [intros _; simpl; set_solver|].
  destruct (mapM _ _) as [fnames|] eqn:Hmap; [|intros _; set_solver].
  simpl. intros H. by exfalso.
Qed.

End AdmissionFacts.

(** X3. When the submit route answers 202, it has reserved the batch: the
    batch is active under the new id with both counters at zero and no
    results, the progress list has one ['pending'] entry without error for
    each requested index that lies in [[0, number of images)], in request
    order and with the registry's file name, [total] is their number, the
    thread is started for exactly these indices with between one and that
    many workers, and of the session only [is_batch_mode] has changed. *)
Theorem submit_accepted_reserves_batch (e : Server.env) (bid : string)
    (req : Server.submit_request) (s : Server.state) :
  Server.code (Server.run_color_correction_parallel e bid req s).1.1 = 202 ->
  let r := Server.run_color_correction_parallel e bid req s in
  let w := Server.batch r.1.2 in
  ∃ images filenames workers,
    let valid := filter (fun i => 0 <= i < Z.of_nat (length images))
                        (Server.image_indices req) in
    Session.get "images" (VList []) (Server.session s) = VList images
    ∧ valid ≠ []
    ∧ Forall2 (fun i fname =>
                 images !! Z.to_nat i ≫= Server.image_field "filename" = Some fname)
              valid filenames
    ∧ BatchState.progress_items w
      = (fun p : Z * string => BatchState.Item p.1 p.2 "pending" None)
        <$> zip valid filenames
    ∧ BatchState.image_index <$> BatchState.progress_items w = valid
    ∧ BatchState.total w.2 = Z.of_nat (length valid)
    ∧ BatchState.batch_id w.2 = bid ∧ BatchState.active w.2 = true
    ∧ BatchState.completed w.2 = 0 ∧ BatchState.failed w.2 = 0
    ∧ BatchState.results w.2 = []
    ∧ r.2 = Some {| Server.sp_batch_id := bid; Server.sp_indices := valid;
                    Server.sp_workers := workers |}
    ∧ 1 <= workers <= Z.of_nat (length valid)
    ∧ Server.session r.1.2
      = Session.set "is_batch_mode" (VBool true) (Server.session s).
Proof.
  intros H202 r w. subst w r.
  destruct (submit_accepted e bid req s H202)
    as (images & filenames & user & Hcc & Hmw & Hact & Himg & Hne & Hm & Hmap
        & ->).
  rewrite validate_indices_spec in *.
  exists images, filenames,
    (Workers.batch_workers (Server.cpu_count e) (Server.gpu_available e) user
       (Z.of_nat (length (filter (fun i => 0 <= i < Z.of_nat (length images))
                                 (Server.image_indices req))))).
  cbv zeta.
  remember (filter (fun i => 0 <= i < Z.of_nat (length images))
                   (Server.image_indices req)) as valid eqn:Hvalid.
  simpl.
  apply mapM_Some in Hmap.
  pose proof (Forall2_length _ _ _ Hmap) as Hlen.
  assert (Hpos : 1 <= Z.of_nat (length valid))
    by (destruct valid; [done | simpl length; lia]).
  rewrite reset_items.
  split; [done|]. split; [done|]. split; [done|]. split; [done|].
  split.
  { rewrite <- list_fmap_compose.
    etrans; [|apply (fst_zip valid filenames); lia].
    by apply list_fmap_ext. }
  destruct (Server.batch s) as [h b]. simpl.
  repeat split; try done; by apply batch_workers_range.
Qed.

Lemma submit_accepted_reserves_batch_witness :
  BatchState.batch_id (Server.batch Example.admitted).2 = "batch_1"
  ∧ BatchState.active (Server.batch Example.admitted).2 = true
  ∧ BatchState.completed (Server.batch Example.admitted).2 = 0.
Proof.
  destruct (submit_accepted_reserves_batch Example.env "batch_1" Example.request
              Example.loaded eq_refl)
    as (images & filenames & workers & _ & _ & _ & _ & _ & _ & Hid & Hact & Hc & _).
  split; [exact Hid|]. split; [exact Hact | exact Hc].
Defined.

(** X4. Whenever the submit route answers anything but 202, its answer is
    503, 409, 400 or 500, no thread is started, and the batch state and the
    session are exactly as before. *)
Theorem submit_rejected_changes_nothing (e : Server.env) (bid : string)
    (req : Server.submit_request) (s : Server.state) :
  Server.code (Server.run_color_correction_parallel e bid req s).1.1 ≠ 202 ->
  let r := Server.run_color_correction_parallel e bid req s in
  r.1.2 = s ∧ r.2 = None ∧ Server.code r.1.1 ∈ [503; 409; 400; 500].
Proof. intros H r. subst r. by apply submit_rejected. Qed.

Lemma submit_rejected_changes_nothing_witness :
  let req := {| Server.image_indices := [5; -1]; Server.method := "pls";
                Server.max_workers := None |} in
  let r := Server.run_color_correction_parallel Example.env "batch_1" req
             Example.loaded in
  r.1.2 = Example.loaded ∧ r.2 = None
  ∧ Server.code r.1.1 ∈ [503; 409; 400; 500].
Proof.
  intros req r. subst r.
  apply (submit_rejected_changes_nothing Example.env "batch_1" req Example.loaded).
  vm_compute. discriminate.
Defined.

(** X5. Take a request whose body is a JSON object, with the pipeline
    library available, no batch active, every registered image carrying a
    file name, a method among the five known ones and at least one requested
    index in [[0, number of images)]. It is admitted with 202 when
    [max_workers] is absent or a value that [int()] converts; when [int()]
    raises on it, the route answers 500 with the text of the exception,
    starts nothing and changes nothing. *)
Theorem submit_admits_valid_request (e : Server.env) (bid : string)
    (req : Server.submit_request) (s : Server.state) (images : list pyval) (i : Z) :
  Server.CC_AVAILABLE e = true ->
  BatchState.is_active (Server.batch s) = false ->
  Session.get "images" (VList []) (Server.session s) = VList images ->
  Forall (fun img => is_Some (Server.image_field "filename" img)) images ->
  Server.method req ∈ Server.valid_methods ->
  i ∈ Server.image_indices req -> 0 <= i < Z.of_nat (length images) ->
  match Server.max_workers req with
  | Some (Server.IntRaises msg) =>
      Server.run_color_correction_parallel e bid req s
      = (Server.failure 500 msg, s, None)
  | _ => Server.code (Server.run_color_correction_parallel e bid req s).1.1 = 202
  end.
Proof.
  intros Hcc Hact Himg Hnames Hm Hi Hrange.
  unfold Server.run_color_correction_parallel.
  rewrite Hcc, Hact, Himg. simpl.
  destruct images as [|img imgs]; [simpl in Hrange; lia|].
  assert (Hin : i ∈ Server.validate_indices (Server.image_indices req)
                      (Z.of_nat (length (img :: imgs)))).
  { rewrite validate_indices_spec. apply list_elem_of_filter. done. }
  destruct (Server.validate_indices _ _) as [|j rest] eqn:Hv;
    [by apply elem_of_nil in Hin|].
  unfold Server.validate_method. rewrite (bool_decide_eq_true_2 _ Hm).
  destruct (Server.max_workers req) as [[u|msg]|];
    cbn [Server.int_of_max_workers]; [|done|].
  all: destruct (mapM _ (j :: rest)) as [fnames|] eqn:Hmap; [done|].
  all: exfalso; apply mapM_None in Hmap;
    apply Exists_exists in Hmap as (k & Hk & Hnone);
    rewrite <- Hv, validate_indices_spec in Hk;
    apply list_elem_of_filter in Hk as [Hkr _];
    (destruct (lookup_lt_is_Some_2 (img :: imgs) (Z.to_nat k)) as [im Him];
       [lia|]);
    rewrite Him in Hnone; simpl in Hnone;
    rewrite Forall_forall in Hnames;
    (destruct (Hnames im) as [fname Hf]; [by eapply list_elem_of_lookup_2|]);
    congruence.
Qed.

Lemma submit_admits_valid_request_witness :
  Server.code (Server.run_color_correction_parallel Example.env "batch_1"
                 Example.request Example.loaded).1.1 = 202.
Proof.
  apply (submit_admits_valid_request Example.env "batch_1" Example.request
           Example.loaded [Example.image] 0).
  - reflexivity.
  - reflexivity.
  - reflexivity.
  - repeat constructor. by eexists.
  - unfold Server.valid_methods. simpl. repeat constructor.
  - simpl. repeat constructor.
  - simpl. lia.
Defined.



(** ** Complete runs of the background thread *)

Section Runs.
Import Server Routes.

Lemma successes_split (l1 l2 : list future) (f : future) :
  successes (l1 ++ f :: l2) = (if succeeded f then 1 else 0) + successes (l1 ++ l2)
  ∧ failures (l1 ++ f :: l2) = (if succeeded f then 0 else 1) + failures (l1 ++ l2).
Proof.
  unfold successes, failures.
  rewrite !filter_app, !filter_cons, !length_app.
  destruct (succeeded f) eqn:E.
  - rewrite decide_True by done. rewrite decide_False by done.
    simpl length. lia.
  - rewrite decide_False by done. rewrite decide_True by done.
    simpl length. lia.
Qed.

Lemma done_at_finishes (f : future) : is_Some (done_at f) <-> finishes f.
Proof.
  unfold done_at, finishes.
  destruct (f_duration f); simpl; split; intros [? ?]; by eauto.
Qed.

Lemma earliest_total (l : list future) :
  l ≠ [] -> Forall finishes l -> ∃ f t rest, earliest l = Some (f, t, rest).
Proof.
  intros Hne Hall. destruct (earliest l) as [[[f t] rest]|] eqn:E; [by eauto|].
  destruct l as [|f l]; [done|]. exfalso.
  apply Forall_cons in Hall as [Hf _].
  apply done_at_finishes in Hf as [t Ht].
  rewrite (earliest_None _ E f) in Ht; [done | left].
Qed.

Lemma on_future_success (e : env) (n t : Z) (f : future) (s : state)
    i fname imgs path (l : list pyval) :
  done_at f = Some t ->
  f_outcome f = Returned (BatchState.Success i fname imgs path) ->
  Session.get "batch_processed_images" (VList []) (session s) = VList l ->
  on_future e (Z.max n t) f s
  = {| batch := BatchState.add_result (BatchState.Success i fname imgs path)
                  (BatchState.update_status (f_idx f) "completed" None (batch s));
       session := <["batch_processed_images" :=
                      VList (l ++ [processed_entry i fname imgs path])]>
                    (session s) |}.
Proof.
  intros Hd Ho Hl. unfold on_future.
  rewrite (collected_future_never_times_out n t _ f Hd), Ho.
  unfold Session.append_to_list, on_batch. cbn [batch session]. by rewrite Hl.
Qed.

Lemma on_future_failure (e : env) (n t : Z) (f : future) (s : state) :
  done_at f = Some t ->
  succeeded f = false ->
  ∃ msg, on_future e (Z.max n t) f s
         = on_batch (BatchState.update_status (f_idx f) "failed" (Some msg)) s.
Proof.
  intros Hd Hs. unfold on_future, succeeded in *.
  rewrite (collected_future_never_times_out n t _ f Hd).
  destruct (f_outcome f) as [[i fname imgs path|i fname err]|msg];
    [done | by eexists | by eexists].
Qed.

(** The exact effect of one round of the fan-in loop. *)
Lemma on_future_effect (e : env) (n t : Z) (f : future) (s : state) :
  done_at f = Some t ->
  processed_is_list (session s) ->
  let s' := on_future e (Z.max n t) f s in
  let b := (batch s).2 in
  let b' := (batch s').2 in
  BatchState.completed b'
    = BatchState.completed b + (if succeeded f then 1 else 0)
  ∧ BatchState.failed b' = BatchState.failed b + (if succeeded f then 0 else 1)
  ∧ length (BatchState.results b')
    = (length (BatchState.results b) + (if succeeded f then 1 else 0))%nat
  ∧ BatchState.total b' = BatchState.total b
  ∧ BatchState.active b' = BatchState.active b
  ∧ BatchState.batch_id b' = BatchState.batch_id b
  ∧ processed_is_list (session s')
  ∧ length (processed_images (session s'))
    = (length (processed_images (session s)) + (if succeeded f then 1 else 0))%nat
  ∧ (Progress.wf (batch s) ->
     Progress.wf (batch s')
     ∧ ∃ err, BatchState.progress_items (batch s')
              = Progress.update_first (f_idx f)
                  (BatchState.set_status (recorded_status f) err)
                  (BatchState.progress_items (batch s))).
Proof.
  intros Hd [l Hl]. cbv zeta. unfold recorded_status.
  destruct (succeeded f) eqn:Hs.
  - unfold succeeded in Hs.
    destruct (f_outcome f) as [[i fname imgs path|i fname err]|msg] eqn:Ho;
      try discriminate.
    rewrite (on_future_success e n t f s i fname imgs path l Hd Ho Hl).
    cbn [batch session].
    set (w1 := BatchState.update_status (f_idx f) "completed" None (batch s)).
    pose proof (update_status_completed (f_idx f) "completed" None (batch s)) as Hc.
    pose proof (update_status_failed (f_idx f) "completed" None (batch s)) as Hf.
    destruct (update_status_frame (f_idx f) "completed" None (batch s))
      as (Hid & Ha & Hr & Ht).
    fold w1 in Hc, Hf, Hid, Ha, Hr, Ht. simpl in Hc, Hf.
    assert (Hadd : (BatchState.add_result (BatchState.Success i fname imgs path) w1).2
                   = BatchState.Make (BatchState.batch_id w1.2) (BatchState.active w1.2)
                       (BatchState.progress w1.2)
                       (BatchState.results w1.2 ++ [BatchState.Success i fname imgs path])
                       (BatchState.total w1.2) (BatchState.completed w1.2)
                       (BatchState.failed w1.2)) by (by destruct w1).
    rewrite Hadd. cbn [BatchState.completed BatchState.failed BatchState.results
                       BatchState.total BatchState.active BatchState.batch_id].
    unfold processed_is_list, processed_images, Session.get in *.
    rewrite lookup_insert_eq.
    destruct (session s !! "batch_processed_images") as [v|] eqn:Hv.
    + subst v. rewrite length_app, Hr, length_app. simpl length.
      repeat match goal with |- _ ∧ _ => split end; try lia; try done; eauto.
      intros Hwf. split.
      * apply add_result_items. by apply update_status_wf.
      * exists None. destruct (add_result_items
          (BatchState.Success i fname imgs path) w1) as [-> _].
        by apply update_status_items.
    + injection Hl as <-. rewrite length_app, Hr. simpl length.
      repeat match goal with |- _ ∧ _ => split end; try lia; try done; eauto.
      intros Hwf. split.
      * apply add_result_items. by apply update_status_wf.
      * exists None. destruct (add_result_items
          (BatchState.Success i fname imgs path) w1) as [-> _].
        by apply update_status_items.
  - destruct (on_future_failure e n t f s Hd Hs) as [msg ->].
    unfold on_batch. cbn [batch session].
    rewrite update_status_completed, update_status_failed.
    destruct (update_status_frame (f_idx f) "failed" (Some msg) (batch s))
      as (Hid & Ha & Hr & Ht).
    rewrite Hr. simpl.
    repeat match goal with |- _ ∧ _ => split end; try lia; try done; eauto.
    + by exists l.
    + intros Hwf. split; [by apply update_status_wf|].
      exists (Some msg). by apply update_status_items.
Qed.

End Runs.

Section RunLemmas.
Import Server Routes.

Lemma update_first_fmap {B} (g : BatchState.item -> B) idx f
    (items : list BatchState.item) :
  (∀ it, g (f it) = g it) ->
  g <$> Progress.update_first idx f items = g <$> items.
Proof.
  intros Hf. induction items as [|it items IH]; [done|].
  cbn [Progress.update_first].
  destruct (BatchState.image_index it =? idx); rewrite !fmap_cons;
    [by rewrite Hf | by rewrite IH].
Qed.

(** A future that never finishes keeps [as_completed] waiting for ever. *)
Lemma fan_in_blocks e fuel n pending s f :
  f ∈ pending -> done_at f = None -> fan_in e fuel n pending s = None.
Proof.
  revert n pending s. induction fuel as [|k IH]; intros n pending s Hin Hd.
  - destruct pending; [by apply elem_of_nil in Hin | done].
  - destruct pending as [|p pending]; [by apply elem_of_nil in Hin|].
    cbn [fan_in].
    destruct (earliest (p :: pending)) as [[[g t] rest]|] eqn:He; [|done].
    destruct (earliest_Some _ g t rest He) as (l1 & l2 & Hl & -> & Hg & _).
    apply IH; [|done]. rewrite Hl in Hin.
    apply elem_of_app in Hin as [Hin|Hin]; [apply elem_of_app; by left|].
    apply elem_of_cons in Hin as [->|Hin]; [congruence|].
    apply elem_of_app. by right.
Qed.

Lemma fan_in_is_Some e fuel n pending s :
  (length pending <= fuel)%nat -> Forall finishes pending ->
  is_Some (fan_in e fuel n pending s).
Proof.
  revert n pending s. induction fuel as [|k IH]; intros n pending s Hlen Hall.
  - destruct pending; [by eexists | simpl in Hlen; lia].
  - destruct pending as [|p pending]; [by eexists|].
    cbn [fan_in].
    destruct (earliest_total (p :: pending)) as (f & t & rest & He); [done..|].
    rewrite He.
    destruct (earliest_Some _ f t rest He) as (l1 & l2 & Hl & -> & _ & _).
    apply IH.
    + assert (length (p :: pending) = length (l1 ++ f :: l2)) as Hq by (by rewrite Hl).
      rewrite !length_app in *. simpl in *. lia.
    + rewrite Hl in Hall. apply Forall_app in Hall as [H1 H2].
      apply Forall_cons in H2 as [_ H2]. by apply Forall_app.
Qed.

Lemma fan_in_totals e fuel n pending s n' s' :
  fan_in e fuel n pending s = Some (n', s') ->
  processed_is_list (session s) ->
  run_totals pending s s'.
Proof.
  revert n pending s. induction fuel as [|k IH]; intros n pending s Hrun Hl.
  - destruct pending; [|done]. injection Hrun as <- <-.
    unfold run_totals, successes, failures. simpl. repeat split; try lia; done.
  - destruct pending as [|p pending].
    + injection Hrun as <- <-.
      unfold run_totals, successes, failures. simpl. repeat split; try lia; done.
    + cbn [fan_in] in Hrun.
      destruct (earliest (p :: pending)) as [[[f t] rest]|] eqn:He; [|done].
      destruct (earliest_Some _ f t rest He) as (l1 & l2 & Hl12 & -> & Hd & _).
      destruct (on_future_effect e n t f s Hd Hl)
        as (Hc & Hf & Hr & Ht & Ha & Hid & Hl' & Hp & _).
      specialize (IH _ _ _ Hrun Hl').
      destruct IH as (Hc2 & Hf2 & Hr2 & Ht2 & Ha2 & Hid2 & Hl2 & Hp2).
      rewrite Hl12. destruct (successes_split l1 l2 f) as [Hs1 Hs2].
      unfold run_totals. rewrite Hs1, Hs2, Hc2, Hf2, Hr2, Ht2, Ha2, Hid2, Hp2.
      rewrite Hc, Hf, Hr, Ht, Ha, Hid, Hp.
      destruct (succeeded f); repeat split; try lia; done.
Qed.

Lemma submit_all_effect (futs : list future) (s : state) :
  let s' := submit_all futs s in
  (batch s').2 = (batch s).2
  ∧ session s' = session s
  ∧ (Progress.wf (batch s) ->
     Progress.wf (batch s')
     ∧ BatchState.image_index <$> BatchState.progress_items (batch s')
       = BatchState.image_index <$> BatchState.progress_items (batch s)
     ∧ BatchState.filename <$> BatchState.progress_items (batch s')
       = BatchState.filename <$> BatchState.progress_items (batch s)).
Proof.
  revert s. induction futs as [|f futs IH]; intros s; [done|].
  cbn [submit_all foldl]. fold (submit_all futs).
  set (s1 := on_batch (BatchState.update_status (f_idx f) "queued" None) s).
  destruct (IH s1) as (Hb & Hs & Hwf). cbv zeta.
  fold (submit_all futs s1). rewrite Hb, Hs.
  assert (Hb1 : (batch s1).2 = (batch s).2).
  { subst s1. unfold on_batch. cbn [batch]. by destruct (batch s) as [h []]. }
  split; [done|]. split; [done|].
  intros Hw.
  assert (Hw1 : Progress.wf (batch s1)) by (by apply update_status_wf).
  destruct (Hwf Hw1) as (Hw2 & Hi & Hn).
  split; [done|]. rewrite Hi, Hn. subst s1. unfold on_batch. cbn [batch].
  rewrite update_status_items by done.
  split; by apply update_first_fmap.
Qed.

(** With distinct indices every entry ends with the status of the future
    submitted for its index. *)
Lemma fan_in_statuses e fuel n pending s n' s' (all : list future) :
  fan_in e fuel n pending s = Some (n', s') ->
  processed_is_list (session s) ->
  Progress.wf (batch s) ->
  NoDup (BatchState.image_index <$> BatchState.progress_items (batch s)) ->
  (∀ f, f ∈ pending -> f ∈ all) ->
  (∀ it, it ∈ BatchState.progress_items (batch s) ->
     BatchState.image_index it ∈ f_idx <$> pending
     ∨ ∃ f, f ∈ all ∧ f_idx f = BatchState.image_index it
            ∧ BatchState.status it = recorded_status f) ->
  BatchState.image_index <$> BatchState.progress_items (batch s')
    = BatchState.image_index <$> BatchState.progress_items (batch s)
  ∧ BatchState.filename <$> BatchState.progress_items (batch s')
    = BatchState.filename <$> BatchState.progress_items (batch s)
  ∧ ∀ it, it ∈ BatchState.progress_items (batch s') ->
      ∃ f, f ∈ all ∧ f_idx f = BatchState.image_index it
           ∧ BatchState.status it = recorded_status f.
Proof.
  revert n pending s. induction fuel as [|k IH];
    intros n pending s Hrun Hl Hwf Hnd Hsub Hinv.
  - destruct pending; [|done]. injection Hrun as <- <-.
    split; [done|]. split; [done|]. intros it Hit.
    destruct (Hinv it Hit) as [Hin|?]; [|done].
    rewrite fmap_nil in Hin. by apply elem_of_nil in Hin.
  - destruct pending as [|p pending].
    + injection Hrun as <- <-.
      split; [done|]. split; [done|]. intros it Hit.
      destruct (Hinv it Hit) as [Hin|?]; [|done].
      rewrite fmap_nil in Hin. by apply elem_of_nil in Hin.
    + cbn [fan_in] in Hrun.
      destruct (earliest (p :: pending)) as [[[f t] rest]|] eqn:He; [|done].
      destruct (earliest_Some _ f t rest He) as (l1 & l2 & Hl12 & -> & Hd & _).
      destruct (on_future_effect e n t f s Hd Hl)
        as (_ & _ & _ & _ & _ & _ & Hl' & _ & Hitems).
      destruct (Hitems Hwf) as (Hwf' & err & Heq).
      set (s1 := on_future e (Z.max n t) f s) in *.
      assert (Hidx : BatchState.image_index <$> BatchState.progress_items (batch s1)
                     = BatchState.image_index
                       <$> BatchState.progress_items (batch s)).
      { rewrite Heq. by apply update_first_fmap. }
      assert (Hfn : BatchState.filename <$> BatchState.progress_items (batch s1)
                    = BatchState.filename <$> BatchState.progress_items (batch s)).
      { rewrite Heq. by apply update_first_fmap. }
      rewrite <- Hidx, <- Hfn.
      apply (IH _ _ _ Hrun Hl' Hwf').
      * by rewrite Hidx.
      * intros g Hg. apply Hsub. rewrite Hl12.
        apply elem_of_app in Hg as [Hg|Hg]; apply elem_of_app;
          [by left | right; by right].
      * intros it' Hit'. rewrite Heq in Hit'.
        destruct (update_first_elem _ _ _ it' Hnd Hit')
          as [[Hold Hne]|(it & Hold & Hi & ->)].
        -- destruct (Hinv it' Hold) as [Hin|?]; [|by right].
           left. rewrite Hl12 in Hin.
           rewrite fmap_app, fmap_cons in Hin. rewrite fmap_app.
           apply elem_of_app in Hin as [Hin|Hin]; apply elem_of_app; [by left|].
           apply elem_of_cons in Hin as [Hin|Hin]; [congruence | by right].
        -- right. exists f. split; [|done].
           apply Hsub. rewrite Hl12. apply elem_of_app. right. left.
Qed.

End RunLemmas.

(** X7. The background thread reaches its end exactly when every submitted
    worker call returns: if one of them never does, [as_completed] blocks
    for ever and the batch stays active; the timeout passed to
    [future.result] plays no part. *)
Theorem batch_finishes_iff_all_futures_do (e : Server.env)
    (futs : list Server.future) (s : Server.state) :
  is_Some (Server.process_batch_background e futs s)
  <-> Forall Routes.finishes futs.
Proof.
  unfold Server.process_batch_background. split.
  - intros Hsome. apply Forall_forall. intros f Hf.
    apply done_at_finishes.
    destruct (Server.done_at f) as [t|] eqn:Hd; [by eexists|].
    rewrite (fan_in_blocks e _ 0 futs _ f Hf Hd) in Hsome.
    by destruct Hsome.
  - intros Hall.
    destruct (fan_in_is_Some e (length futs) 0 futs (Server.submit_all futs s))
      as [[n s'] ->]; [done..|]. by eexists.
Qed.

Lemma batch_finishes_iff_all_futures_do_witness :
  is_Some (Server.process_batch_background Example.env [Example.slow]
             Example.admitted)
  ∧ Server.process_batch_background Example.env
      [Example.quick;
       {| Server.f_idx := 1; Server.f_started_at := 0; Server.f_duration := None;
          Server.f_outcome := Example.success |}]
      Example.admitted = None.
Proof.
  split.
  - apply batch_finishes_iff_all_futures_do. repeat constructor. by eexists.
  - match goal with |- ?x = None => destruct x eqn:E; [exfalso|done] end.
    assert (Hs : is_Some (Server.process_batch_background Example.env
      [Example.quick;
       {| Server.f_idx := 1; Server.f_started_at := 0; Server.f_duration := None;
          Server.f_outcome := Example.success |}] Example.admitted))
      by (rewrite E; by eexists).
    apply batch_finishes_iff_all_futures_do in Hs.
    apply Forall_cons in Hs as [_ Hs]. apply Forall_cons in Hs as [[d Hd] _].
    discriminate.
Defined.

(** X8. When every worker call returns, the thread ends with the batch
    inactive, [completed] raised by the number of calls that returned a
    successful result and [failed] by the number of all others, one result
    and one entry of [batch_processed_images] added per success, and
    [total] and the batch id untouched. *)
Theorem batch_run_totals (e : Server.env) (futs : list Server.future)
    (s : Server.state) :
  Forall Routes.finishes futs ->
  Server.processed_is_list (Server.session s) ->
  ∃ final,
    Server.process_batch_background e futs s = Some final
    ∧ let b := (Server.batch s).2 in
      let b' := (Server.batch final).2 in
      BatchState.completed b' = BatchState.completed b + Routes.successes futs
      ∧ BatchState.failed b' = BatchState.failed b + Routes.failures futs
      ∧ Routes.successes futs + Routes.failures futs = Z.of_nat (length futs)
      ∧ Z.of_nat (length (BatchState.results b'))
        = Z.of_nat (length (BatchState.results b)) + Routes.successes futs
      ∧ Z.of_nat (length (Routes.processed_images (Server.session final)))
        = Z.of_nat (length (Routes.processed_images (Server.session s)))
          + Routes.successes futs
      ∧ BatchState.total b' = BatchState.total b
      ∧ BatchState.batch_id b' = BatchState.batch_id b
      ∧ BatchState.active b' = false
      ∧ Server.session final !! "is_batch_mode" = Some (VBool false).
Proof.
  intros Hall Hl.
  unfold Server.process_batch_background.
  destruct (fan_in_is_Some e (length futs) 0 futs (Server.submit_all futs s))
    as [[n s1] Hfan]; [done..|].
  rewrite Hfan. eexists. split; [done|].
  destruct (submit_all_effect futs s) as (Hb & Hs & _).
  assert (Hl0 : Server.processed_is_list (Server.session (Server.submit_all futs s)))
    by (by rewrite Hs).
  destruct (fan_in_totals e _ _ _ _ _ _ Hfan Hl0)
    as (Hc & Hf & Hr & Ht & Ha & Hid & Hl1 & Hp).
  rewrite Hb, Hs in *. cbv zeta.
  assert (Hsum : Routes.successes futs + Routes.failures futs
                 = Z.of_nat (length futs)).
  { clear. unfold Routes.successes, Routes.failures.
    induction futs as [|f futs IH]; [done|].
    rewrite !filter_cons. destruct (Routes.succeeded f) eqn:E.
    - rewrite decide_True by done. rewrite decide_False by done.
      simpl length. lia.
    - rewrite decide_False by done. rewrite decide_True by done.
      simpl length. lia. }
  unfold Server.teardown. cbn [Server.batch Server.session].
  assert (Hm : (BatchState.mark_complete (Server.batch s1)).2
               = BatchState.Make (BatchState.batch_id (Server.batch s1).2) false
                   (BatchState.progress (Server.batch s1).2)
                   (BatchState.results (Server.batch s1).2)
                   (BatchState.total (Server.batch s1).2)
                   (BatchState.completed (Server.batch s1).2)
                   (BatchState.failed (Server.batch s1).2))
    by (by destruct (Server.batch s1)).
  rewrite Hm. cbn [BatchState.completed BatchState.failed BatchState.results
                   BatchState.total BatchState.active BatchState.batch_id].
  assert (Hpi : Routes.processed_images
                  (Session.set "is_batch_mode" (VBool false) (Server.session s1))
                = Routes.processed_images (Server.session s1)).
  { unfold Routes.processed_images, Session.get, Session.set.
    by rewrite lookup_insert_ne. }
  rewrite Hpi.
  repeat match goal with |- _ ∧ _ => split end; try done.
  unfold Session.set. by rewrite lookup_insert_eq.
Qed.

Lemma batch_run_totals_witness :
  ∃ final,
    Server.process_batch_background Example.env [Example.slow; Example.quick]
      Example.admitted = Some final
    ∧ BatchState.completed (Server.batch final).2 = 2
    ∧ BatchState.failed (Server.batch final).2 = 0.
Proof.
  assert (H1 : Forall Routes.finishes [Example.slow; Example.quick]).
  { repeat constructor; by eexists. }
  assert (H2 : Server.processed_is_list (Server.session Example.admitted)).
  { exists []. reflexivity. }
  destruct (batch_run_totals Example.env [Example.slow; Example.quick]
              Example.admitted H1 H2) as (final & Hrun & Hc & Hf & _).
  exists final. split; [exact Hrun|]. split; [exact Hc | exact Hf].
Defined.

(** X9. For a batch reserved with distinct indices, one file name and one
    future per index: when the thread ends, the progress list still has
    the admitted indices and file names in order, and every entry carries
    the outcome of the future submitted for its index, ['completed'] if
    that call returned a successful result and ['failed'] otherwise; no
    entry is left ['pending'] or ['queued']. *)
Theorem batch_run_statuses (e : Server.env) (bid : string) (idxs : list Z)
    (fnames : list string) (w0 : BatchState.world) (sess : gmap string pyval)
    (futs : list Server.future) (final : Server.state) :
  NoDup idxs -> length fnames = length idxs -> Server.f_idx <$> futs = idxs ->
  Server.processed_is_list sess ->
  Server.process_batch_background e futs
    {| Server.batch := BatchState.reset bid (Z.of_nat (length idxs)) idxs fnames w0;
       Server.session := sess |} = Some final ->
  let items := BatchState.progress_items (Server.batch final) in
  BatchState.image_index <$> items = idxs
  ∧ BatchState.filename <$> items = fnames
  ∧ ∀ it, it ∈ items ->
      Progress.terminal (BatchState.status it)
      ∧ ∃ f, f ∈ futs ∧ Server.f_idx f = BatchState.image_index it
             ∧ BatchState.status it = Routes.recorded_status f.
Proof.
  intros Hnd Hlen Hfuts Hl Hrun items. subst items.
  set (s0 := {| Server.batch := _; Server.session := sess |}) in *.
  unfold Server.process_batch_background in Hrun.
  destruct (Server.fan_in e (length futs) 0 futs (Server.submit_all futs s0))
    as [[n s1]|] eqn:Hfan; [|done].
  injection Hrun as <-.
  assert (Hwf0 : Progress.wf (Server.batch s0)) by apply reset_wf.
  assert (Hitems0 : BatchState.progress_items (Server.batch s0)
                    = (fun p : Z * string => BatchState.Item p.1 p.2 "pending" None)
                      <$> zip idxs fnames) by apply reset_items.
  assert (Hidx0 : BatchState.image_index
                    <$> BatchState.progress_items (Server.batch s0) = idxs).
  { rewrite Hitems0, <- list_fmap_compose.
    etrans; [|apply (fst_zip idxs fnames); lia]. by apply list_fmap_ext. }
  assert (Hfn0 : BatchState.filename
                   <$> BatchState.progress_items (Server.batch s0) = fnames).
  { rewrite Hitems0, <- list_fmap_compose.
    etrans; [|apply (snd_zip idxs fnames); lia]. by apply list_fmap_ext. }
  destruct (submit_all_effect futs s0) as (_ & Hs & Hq).
  destruct (Hq Hwf0) as (Hwf1 & Hidx1 & Hfn1).
  destruct (fan_in_statuses e _ _ _ _ _ _ futs Hfan) as (Hi & Hf & Hst).
  - by rewrite Hs.
  - done.
  - by rewrite Hidx1, Hidx0.
  - done.
  - intros it Hit. left. rewrite Hfuts, <- Hidx0, <- Hidx1.
    apply list_elem_of_fmap. by exists it.
  - unfold Server.teardown. cbn [Server.batch].
    destruct (mark_complete_items (Server.batch s1)) as [-> _].
    rewrite Hi, Hf, Hidx1, Hfn1, Hidx0, Hfn0.
    split; [done|]. split; [done|].
    intros it Hit. destruct (Hst it Hit) as (f & Hin & Hfi & Hs').
    split; [|by exists f].
    rewrite Hs'. unfold Routes.recorded_status, Progress.terminal.
    destruct (Routes.succeeded f); [by left | by right].
Qed.

Lemma batch_run_statuses_witness :
  ∃ final,
    Server.process_batch_background Example.env [Example.slow] Example.admitted
      = Some final
    ∧ BatchState.image_index <$> BatchState.progress_items (Server.batch final)
      = [0].
Proof.
  eexists. split; [reflexivity|].
  assert (Hnd : NoDup [0]) by (apply NoDup_singleton).
  assert (Hl : Server.processed_is_list
                 (Session.set "is_batch_mode" (VBool true)
                              (Server.session Example.loaded))).
  { exists []. reflexivity. }
  destruct (batch_run_statuses Example.env "batch_1" [0] ["a.png"]
              ([], BatchState.initial) _ [Example.slow] _ Hnd eq_refl eq_refl Hl
              eq_refl) as (Hidx & _).
  exact Hidx.
Defined.

(** ** More on the settings route *)

Section SettingsFacts.

Lemma handle_settings_get step s r :
  step ∈ Server.valid_steps -> Server.stage_settings step s = Some r ->
  Server.code (Server.handle_settings step Server.SettingsGet s).1 = 200
  ∧ Server.body (Server.handle_settings step Server.SettingsGet s).1
      !! "settings" = Some (VDict r).
Proof.
  intros Hin Hr. unfold Server.handle_settings.
  rewrite (bool_decide_eq_true_2 _ Hin). simpl.
  unfold Server.stage_settings in Hr.
  destruct (Session.get "settings" (VDict ∅) s) as [| | | | | |cur|];
    try discriminate.
  destruct (cur !! step) as [[| | | | | |o|]|]; try discriminate.
  injection Hr as ->. done.
Qed.

End SettingsFacts.



(** X11. Updates of one stage compose: posting [upd1] and then [upd2] leaves
    the session exactly as one post of the two merged with [upd2] winning;
    so posting the same update twice is the same as posting it once, and a
    GET after a POST returns the record the POST answered. *)
Theorem settings_updates_compose (step : string) (old upd1 upd2 : gmap string pyval)
    (s : gmap string pyval) :
  step ∈ Server.valid_steps ->
  Server.stage_settings step s = Some old ->
  let post u d := Server.handle_settings step (Server.SettingsPost (Some u)) d in
  (post upd2 (post upd1 s).2).2 = (post (upd2 ∪ upd1) s).2
  ∧ (post upd1 (post upd1 s).2).2 = (post upd1 s).2
  ∧ Server.body (Server.handle_settings step Server.SettingsGet (post upd1 s).2).1
      !! "settings"
    = Server.body (post upd1 s).1 !! "settings"
  ∧ Server.stage_settings step (post upd1 s).2 = Some (upd1 ∪ old).
Proof.
  intros Hstep Hold post.
  assert (Hpost : ∀ u o d, Server.stage_settings step d = Some o ->
            ∃ cur, Session.get "settings" (VDict ∅) d = VDict cur
                   ∧ cur !! step = Some (VDict o)
                   ∧ post u d
                     = ({| Server.code := 200;
                           Server.body := list_to_map
                             [("success", VBool true);
                              ("message",
                               VStr (Server.upper_step step +:+ " settings updated"));
                              ("settings", VDict (u ∪ o))] |},
                        <["settings" := VDict (<[step := VDict (u ∪ o)]> cur)]> d)).
  { intros u o d Hd. subst post. unfold Server.handle_settings.
    rewrite (bool_decide_eq_true_2 _ Hstep). simpl.
    unfold Server.stage_settings in Hd.
    destruct (Session.get "settings" (VDict ∅) d) as [| | | | | |cur|];
      try discriminate.
    destruct (cur !! step) as [[| | | | | |o'|]|] eqn:Hc; try discriminate.
    injection Hd as ->. exists cur. by rewrite Hc. }
  assert (Hafter : ∀ u o d cur, Session.get "settings" (VDict ∅) d = VDict cur ->
            Server.stage_settings step
              (<["settings" := VDict (<[step := VDict (u ∪ o)]> cur)]> d)
            = Some (u ∪ o)).
  { intros u o d cur _. unfold Server.stage_settings, Session.get.
    by rewrite !lookup_insert_eq. }
  destruct (Hpost upd1 old s Hold) as (cur & Hget & Hcur & E1).
  destruct (Hpost (upd2 ∪ upd1) old s Hold) as (cur' & Hget' & Hcur' & E12).
  assert (cur' = cur) as -> by congruence.
  rewrite E1. cbn [snd fst].
  pose proof (Hafter upd1 old s cur Hget) as Hst1.
  destruct (Hpost upd2 (upd1 ∪ old) _ Hst1) as (c2 & Hg2 & _ & E2).
  destruct (Hpost upd1 (upd1 ∪ old) _ Hst1) as (c3 & Hg3 & _ & E3).
  unfold Session.get in Hg2, Hg3. rewrite lookup_insert_eq in Hg2, Hg3.
  injection Hg2 as <-. injection Hg3 as <-.
  rewrite E2, E3, E12. cbn [snd fst].
  rewrite !insert_insert_eq.
  split; [by rewrite (assoc_L (∪))|].
  split; [by rewrite (assoc_L (∪)), (idemp_L (∪))|].
  split; [|done].
  destruct (handle_settings_get step _ _ Hstep Hst1) as [_ ->]. done.
Qed.

Lemma settings_updates_compose_witness :
  Server.stage_settings "gc"
    (Server.handle_settings "gc"
       (Server.SettingsPost (Some {[ "max_degree" := VInt 7 ]})) Session.init).2
  = Some ({[ "max_degree" := VInt 7 ]} ∪ Session.default_gc).
Proof.
  assert (Hs : "gc" ∈ Server.valid_steps)
    by (unfold Server.valid_steps; repeat constructor).
  destruct (settings_updates_compose "gc" Session.default_gc
              {[ "max_degree" := VInt 7 ]} ∅ Session.init Hs eq_refl)
    as (_ & _ & _ & H).
  exact H.
Defined.

(** ** Reachable batch states *)

Section ReachableFacts.
Import Server.

Lemma length_deref_wf (w : BatchState.world) :
  Progress.wf w ->
  length (BatchState.progress_items w) = length (BatchState.progress w.2).
Proof.
  destruct w as [h b]. unfold Progress.wf, BatchState.progress_items. simpl.
  intros [_ Hval]. induction Hval as [|l ps Hl _ IH]; [done|].
  rewrite deref_cons.
  destruct (lookup_lt_is_Some_2 h l Hl) as [it Hit].
  unfold BatchState.loc, BatchState.heap in *. rewrite Hit. simpl. by rewrite IH.
Qed.

Lemma mapM_filenames_length {A B} (f : A -> option B) (l : list A) (k : list B) :
  mapM f l = Some k -> length k = length l.
Proof. intros H. symmetry. by eapply length_mapM. Qed.

End ReachableFacts.

(** X12. In every state the server can reach, whatever the order in which
    the submit route and the methods of the batch state have run: the
    references of the progress list are distinct and point at existing
    dicts, [total] is the number of progress entries, and the two counters
    are not negative. *)
Theorem reachable_batch_is_consistent (e : Server.env) (s : Server.state) :
  Server.reachable e s ->
  Progress.wf (Server.batch s)
  ∧ BatchState.total (Server.batch s).2
    = Z.of_nat (length (BatchState.progress_items (Server.batch s)))
  ∧ 0 <= BatchState.completed (Server.batch s).2
  ∧ 0 <= BatchState.failed (Server.batch s).2.
Proof.
  intros Hr.
  cut (Progress.wf (Server.batch s)
       ∧ BatchState.total (Server.batch s).2
         = Z.of_nat (length (BatchState.progress (Server.batch s).2))
       ∧ 0 <= BatchState.completed (Server.batch s).2
       ∧ 0 <= BatchState.failed (Server.batch s).2).
  { intros (Hwf & Ht & Hc & Hf). by rewrite length_deref_wf. }
  induction Hr as [|bid req s Hr IH|idx status err s Hr IH|r s Hr IH|s Hr IH
                   |sess s Hr IH].
  - split; [|done]. split; [apply NoDup_nil_2 | apply Forall_nil_2].
  - destruct (decide (Server.code
        (Server.run_color_correction_parallel e bid req s).1.1 = 202)) as [H|H].
    + destruct (submit_accepted e bid req s H)
        as (images & fnames & user & _ & _ & _ & _ & _ & _ & Hmap & ->).
      cbn [fst snd Server.batch].
      split; [apply reset_wf|].
      apply mapM_filenames_length in Hmap.
      destruct (Server.batch s) as [h b]. simpl.
      rewrite length_seq, length_fmap, length_zip_with. lia.
    + by destruct (submit_rejected e bid req s H) as [-> _].
  - destruct IH as (Hwf & Ht & Hc & Hf).
    split; [by apply update_status_wf|].
    unfold Server.on_batch. cbn [Server.batch].
    destruct (Server.batch s) as [h b]. simpl in *.
    repeat match goal with |- _ ∧ _ => split end; [done|..];
      repeat match goal with |- context [String.eqb ?a ?b] =>
               destruct (String.eqb a b) end; lia.
  - destruct IH as (Hwf & Ht & Hc & Hf).
    unfold Server.on_batch. cbn [Server.batch].
    split; [by apply add_result_items|].
    by destruct (Server.batch s) as [h b].
  - destruct IH as (Hwf & Ht & Hc & Hf).
    unfold Server.on_batch. cbn [Server.batch].
    split; [by apply mark_complete_items|].
    by destruct (Server.batch s) as [h b].
  - exact IH.
Qed.

Lemma reachable_batch_is_consistent_witness :
  BatchState.total (Server.batch Example.admitted).2
  = Z.of_nat (length (BatchState.progress_items (Server.batch Example.admitted))).
Proof.
  assert (Hr : Server.reachable Example.env Example.admitted).
  { apply (Server.reach_submit Example.env "batch_1" Example.request).
    apply Server.reach_session, Server.reach_initial. }
  destruct (reachable_batch_is_consistent Example.env Example.admitted Hr)
    as (_ & Ht & _).
  exact Ht.
Defined.

(** ** Uploads *)

(** X13. Extending the list of images, as the upload route does, only
    appends: the call succeeds on a stored list, every image keeps its
    index, every index that passed the range check still passes it, so the
    indices of a request that were valid before the upload are valid after
    it, and no other key of the session changes. Two uploads in a row are
    one upload of the concatenation. *)
Theorem upload_keeps_image_indices (values : list pyval) (l : list pyval)
    (s : gmap string pyval) :
  Session.get "images" (VList []) s = VList l ->
  ∃ s',
    Routes.extend_list "images" values s = Some s'
    ∧ Session.get "images" (VList []) s' = VList (l ++ values)
    ∧ (∀ i img, l !! i = Some img -> (l ++ values) !! i = Some img)
    ∧ (∀ idxs i,
         i ∈ Server.validate_indices idxs (Z.of_nat (length l)) ->
         i ∈ Server.validate_indices idxs (Z.of_nat (length (l ++ values))))
    ∧ (∀ k, k ≠ "images" -> s' !! k = s !! k)
    ∧ (∀ more, Routes.extend_list "images" more s'
               = Routes.extend_list "images" (values ++ more) s).
Proof.
  intros Hget. unfold Routes.extend_list. rewrite Hget.
  eexists. split; [done|].
  split; [unfold Session.get; by rewrite lookup_insert_eq|].
  split; [intros i img Hi; by apply lookup_app_l_Some|].
  split.
  { intros idxs i. rewrite !validate_indices_spec, !list_elem_of_filter.
    rewrite length_app, Nat2Z.inj_add. intros [Hi Hin]. split; [lia|done]. }
  split; [intros k Hk; by rewrite lookup_insert_ne|].
  intros more. unfold Session.get. rewrite lookup_insert_eq.
  by rewrite insert_insert_eq, app_assoc.
Qed.

Lemma upload_keeps_image_indices_witness :
  ∃ s', Routes.extend_list "images" [VStr "b.png"]
          (Server.session Example.loaded) = Some s'
        ∧ 0 ∈ Server.validate_indices [0; 5] 2.
Proof.
  destruct (upload_keeps_image_indices [VStr "b.png"] [Example.image]
              (Server.session Example.loaded) eq_refl)
    as (s' & H1 & _ & _ & H4 & _).
  exists s'. split; [exact H1|].
  apply (H4 [0; 5] 0). unfold Server.validate_indices. simpl. left.
Defined.

(** ** Pool sizes *)

Section PoolFacts.

(** [int(0.8 * n)] as Python computes it is [floor(8 n / 10)], for every
    count up to 1024. *)
Lemma int_0_8_times_is_ieee (n : Z) :
  0 <= n <= 1024 -> Routes.int_0_8_times_ieee n = Some (Routes.int_0_8_times n).
Proof.
  intros Hn.
  pose (ok := fun k : Z =>
    match Routes.int_0_8_times_ieee k with
    | Some r => r =? Routes.int_0_8_times k
    | None => false
    end).
  assert (Hall : forallb ok (seqZ 0 1025) = true) by (vm_compute; reflexivity).
  rewrite forallb_forall in Hall.
  assert (Hin : In n (seqZ 0 1025)).
  { apply list_elem_of_In, elem_of_seqZ. lia. }
  specialize (Hall n Hin). unfold ok in Hall.
  destruct (Routes.int_0_8_times_ieee n) as [r|]; [|discriminate].
  apply Z.eqb_eq in Hall. by subst.
Qed.

End PoolFacts.

(** X14. The pools of the bulk batch run and of the two save routes are
    sized from their tasks: for at least one task they get at least one
    worker and never more workers than tasks, whatever the CPU count, the
    GPU flag and the override; the save routes use at least [min(2, tasks)]
    workers and never fewer than the CPU policy of the batch run, and their
    [int(0.8 * cpus)] is the floor of [8 * cpus / 10], as binary64
    arithmetic gives it up to 1024 CPUs. The inference-only apply sizes its
    pool from the indices as requested, not from its tasks: it gets between
    one and [min(8, requested)] workers, an override inside that range is
    taken as it is, and, as only the indices that pass the range check
    become tasks, the pool can be larger than the number of tasks: it is
    when one index of two or more is valid and the override is at least
    two, or there is no override and a GPU. *)
Theorem pool_sizes_are_usable (cpus tasks : Z) (gpu : bool) (o : option Z)
    (image_indices : list Z) (num_images : Z) :
  let requested := Z.of_nat (length image_indices) in
  let pool := (Routes.apply_pool cpus gpu o image_indices num_images).1 in
  let apply_tasks :=
    Z.of_nat (length (Routes.apply_pool cpus gpu o image_indices num_images).2) in
  1 <= tasks -> 1 <= apply_tasks ->
  1 <= Workers.batch_workers cpus gpu o tasks <= tasks
  ∧ Z.min 2 tasks <= Routes.save_workers cpus tasks <= tasks
  ∧ Workers.calculate_optimal_workers cpus tasks false
      <= Routes.save_workers cpus tasks
  ∧ (0 <= cpus <= 1024 ->
     Routes.int_0_8_times_ieee cpus = Some (Routes.int_0_8_times cpus))
  ∧ apply_tasks <= requested
  ∧ 1 <= pool <= Z.min 8 requested
  ∧ (∀ u, o = Some u -> 1 <= u <= Z.min 8 requested -> pool = u)
  ∧ (apply_tasks = 1 -> 2 <= requested ->
     (∃ u, o = Some u ∧ 2 <= u) ∨ (o = None ∧ gpu = true) ->
     apply_tasks < pool).
Proof.
  intros requested pool apply_tasks Ht Ha.
  assert (Hreq : apply_tasks <= requested).
  { subst apply_tasks requested. unfold Routes.apply_pool, Routes.apply_validated.
    cbn [snd]. apply inj_le, length_filter. }
  subst pool. unfold Routes.apply_pool in *. cbn [fst snd] in *.
  fold requested.
  unfold Workers.batch_workers, Workers.apply_workers, Routes.save_workers,
    Workers.calculate_optimal_workers, Workers.int_0_6_times,
    Routes.int_0_8_times.
  assert (H68 : 6 * cpus / 10 <= Z.max 2 (8 * cpus / 10)).
  { destruct (Z_le_gt_dec 0 cpus) as [Hc|Hc].
    - etrans; [apply (Z.div_le_mono (6 * cpus) (8 * cpus) 10); lia | lia].
    - assert (6 * cpus / 10 < 0) by (apply Z.div_lt_upper_bound; lia). lia. }
  split; [|split; [|split; [|split; [|split; [|split; [|split]]]]]].
  - generalize dependent (6 * cpus / 10). intros a _.
    destruct o as [u|], gpu; lia.
  - lia.
  - generalize dependent (6 * cpus / 10). generalize (8 * cpus / 10). lia.
  - apply int_0_8_times_is_ieee.
  - exact Hreq.
  - generalize dependent (6 * cpus / 10). intros a _.
    destruct o as [u|], gpu; cbv zeta; lia.
  - intros u -> Hu. lia.
  - intros H1 H2 [(u & -> & Hu)|[-> ->]]; cbv zeta; lia.
Qed.

Lemma pool_sizes_are_usable_witness :
  (Routes.apply_pool 8 false (Some 8) [0; 5; 6] 1).2 = [0]
  ∧ 1 < (Routes.apply_pool 8 false (Some 8) [0; 5; 6] 1).1
  ∧ Z.min 2 20 <= Routes.save_workers 8 20 <= 20.
Proof.
  split; [reflexivity|].
  destruct (pool_sizes_are_usable 8 20 false (Some 8) [0; 5; 6] 1)
    as (_ & Hsave & _ & _ & _ & _ & _ & Hmore); [lia | simpl; lia |].
  split; [|exact Hsave].
  apply Hmore; [reflexivity | simpl; lia |].
  left. exists 8. split; [reflexivity | lia].
Defined.

(** ** The image shown as final result *)

(** X16. The single-image route shows the image of the last pipeline step,
    in the order FFC, GC, WB, CC, for which the result dict holds an image
    (under the key with the image name or under the bare step name): every
    later step has none, and nothing is shown exactly when no step has
    one. *)
Theorem final_corrected_is_last_available {image : Type} (img_name : string)
    (images_dict : gmap string (option image)) :
  match Routes.final_corrected img_name images_dict with
  | Some (img, step_key) =>
      Routes.step_image img_name images_dict step_key = Some img
      ∧ ∃ before after,
          ["FFC"; "GC"; "WB"; "CC"] = before ++ step_key :: after
          ∧ ∀ later, later ∈ after ->
              Routes.step_image img_name images_dict later = None
  | None =>
      ∀ step_key, step_key ∈ ["FFC"; "GC"; "WB"; "CC"] ->
        Routes.step_image img_name images_dict step_key = None
  end.
Proof.
  unfold Routes.final_corrected. cbn [foldl].
  destruct (Routes.step_image img_name images_dict "CC") as [cc|] eqn:Hcc.
  { split; [done|]. exists ["FFC"; "GC"; "WB"], []. split; [done|].
    intros later Hl. by apply elem_of_nil in Hl. }
  destruct (Routes.step_image img_name images_dict "WB") as [wb|] eqn:Hwb.
  { split; [done|]. exists ["FFC"; "GC"], ["CC"]. split; [done|].
    intros later Hl. apply list_elem_of_singleton in Hl. by subst. }
  destruct (Routes.step_image img_name images_dict "GC") as [gc|] eqn:Hgc.
  { split; [done|]. exists ["FFC"], ["WB"; "CC"]. split; [done|].
    intros later Hl. rewrite !elem_of_cons, elem_of_nil in Hl.
    destruct Hl as [->|[->|[]]]; done. }
  destruct (Routes.step_image img_name images_dict "FFC") as [ffc|] eqn:Hffc.
  { split; [done|]. exists [], ["GC"; "WB"; "CC"]. split; [done|].
    intros later Hl. rewrite !elem_of_cons, elem_of_nil in Hl.
    destruct Hl as [->|[->|[->|[]]]]; done. }
  intros step_key Hl. rewrite !elem_of_cons, elem_of_nil in Hl.
  destruct Hl as [->|[->|[->|[->|[]]]]]; done.
Qed.

(** ** Data URIs *)

Section DataUriFacts.
Import Routes.

Lemma split_on_no_sep (s : string) :
  has_comma s = false -> split_on ","%char s = [s].
Proof.
  induction s as [|c s IH]; [done|].
  cbn [has_comma split_on]. intros H. apply orb_false_iff in H as [Hc Hs].
  rewrite Hc, (IH Hs). done.
Qed.

Lemma split_on_prefix (p s : string) :
  has_comma p = false ->
  split_on ","%char (p +:+ String ","%char s) = p :: split_on ","%char s.
Proof.
  induction p as [|c p IH]; [done|].
  cbn [has_comma]. intros H. apply orb_false_iff in H as [Hc Hs].
  change (String c p +:+ String ","%char s)
    with (String c (p +:+ String ","%char s)).
  cbn [split_on]. rewrite Hc, (IH Hs). done.
Qed.

Lemma split_on_segments (s : string) :
  ∃ h t, split_on ","%char s = h :: t
         ∧ has_comma h = false ∧ Forall (fun x => has_comma x = false) t
         ∧ (has_comma s = true <-> t ≠ []).
Proof.
  induction s as [|c s (h & t & IH & Hh & Ht & Hiff)].
  - exists EmptyString, []. by repeat split.
  - cbn [split_on has_comma]. destruct (Ascii.eqb c ","%char) eqn:Hc.
    + exists EmptyString, (h :: t). rewrite IH.
      split; [done|]. split; [done|]. split; [by constructor|]. done.
    + rewrite IH. exists (String c h), t.
      split; [done|]. split; [cbn [has_comma]; by rewrite Hc, Hh|].
      split; [done|]. by rewrite orb_false_l.
Qed.

End DataUriFacts.

(** X17. Stripping the data-URI prefix undoes [encode_image]: for text
    without a comma, as base64 text is, the payload of the URI that
    [encode_image] builds is given back, and so is the payload behind any
    other prefix without a comma; text that has no prefix is taken as it
    is. Whatever the input, the result holds no comma; on an input with a
    second comma everything from that comma on is dropped. *)
Theorem strip_data_uri_gives_payload (b64 : string) :
  Routes.has_comma b64 = false ->
  Routes.strip_data_uri (Routes.data_uri b64) = b64
  ∧ Routes.strip_data_uri b64 = b64
  ∧ (∀ pre, Routes.has_comma pre = false ->
       Routes.strip_data_uri (pre +:+ String ","%char b64) = b64)
  ∧ (∀ pre rest, Routes.has_comma pre = false ->
       Routes.strip_data_uri
         (pre +:+ String ","%char (b64 +:+ String ","%char rest)) = b64)
  ∧ (∀ s, Routes.has_comma (Routes.strip_data_uri s) = false).
Proof.
  intros Hb.
  assert (Hpre : ∀ pre, Routes.has_comma pre = false ->
            Routes.strip_data_uri (pre +:+ String ","%char b64) = b64).
  { intros pre Hp. unfold Routes.strip_data_uri.
    by rewrite split_on_prefix, split_on_no_sep. }
  split; [|split; [|split; [|split]]].
  - apply (Hpre "data:image/jpeg;base64"). reflexivity.
  - unfold Routes.strip_data_uri. by rewrite split_on_no_sep.
  - exact Hpre.
  - intros pre rest Hp. unfold Routes.strip_data_uri.
    rewrite split_on_prefix by done. rewrite split_on_prefix by done.
    done.
  - intros s. unfold Routes.strip_data_uri.
    destruct (split_on_segments s) as (h & t & -> & Hh & Ht & Hiff).
    destruct t as [|second t].
    + destruct (Routes.has_comma s); [|done]. by destruct (proj1 Hiff).
    + by apply Forall_cons in Ht as [Ht _].
Qed.

Lemma strip_data_uri_gives_payload_witness :
  Routes.strip_data_uri (Routes.data_uri "aGVsbG8=") = "aGVsbG8=".
Proof.
  destruct (strip_data_uri_gives_payload "aGVsbG8=" eq_refl) as (H & _).
  exact H.
Defined.

(** ** One batch after another *)

Section NextBatch.
Import Server Routes.

(** One round of the fan-in loop writes no session key but
    ['batch_processed_images']. *)
Lemma on_future_session_frame (e : env) (n t : Z) (f : future) (s : state)
    (k : string) :
  done_at f = Some t -> processed_is_list (session s) ->
  k ≠ "batch_processed_images" ->
  session (on_future e (Z.max n t) f s) !! k = session s !! k.
Proof.
  intros Hd [l Hl] Hk. destruct (succeeded f) eqn:Hs.
  - unfold succeeded in Hs.
    destruct (f_outcome f) as [[i fname imgs path|i fname err]|msg] eqn:Ho;
      try discriminate.
    rewrite (on_future_success e n t f s i fname imgs path l Hd Ho Hl).
    cbn [session]. by rewrite lookup_insert_ne.
  - by destruct (on_future_failure e n t f s Hd Hs) as [msg ->].
Qed.

Lemma fan_in_session_frame e fuel n pending s n' s' (k : string) :
  fan_in e fuel n pending s = Some (n', s') ->
  processed_is_list (session s) ->
  k ≠ "batch_processed_images" ->
  session s' !! k = session s !! k.
Proof.
  revert n pending s. induction fuel as [|m IH]; intros n pending s Hrun Hl Hk.
  - destruct pending; [|done]. by injection Hrun as <- <-.
  - destruct pending as [|p pending]; [by injection Hrun as <- <-|].
    cbn [fan_in] in Hrun.
    destruct (earliest (p :: pending)) as [[[f t] rest]|] eqn:He; [|done].
    destruct (earliest_Some _ f t rest He) as (l1 & l2 & _ & _ & Hd & _).
    destruct (on_future_effect e n t f s Hd Hl)
      as (_ & _ & _ & _ & _ & _ & Hl' & _).
    rewrite (IH _ _ _ Hrun Hl' Hk).
    by apply on_future_session_frame.
Qed.

(** The answer of the submit route depends on the state only through the
    active flag and the list of images. *)
Lemma submit_code_depends_on e bid bid' req s s' :
  BatchState.is_active (batch s') = BatchState.is_active (batch s) ->
  Session.get "images" (VList []) (session s')
    = Session.get "images" (VList []) (session s) ->
  code (run_color_correction_parallel e bid' req s').1.1
  = code (run_color_correction_parallel e bid req s).1.1.
Proof.
  intros Ha Hi. unfold run_color_correction_parallel. rewrite Ha, Hi.
  destruct (CC_AVAILABLE e); simpl; [|done].
  destruct (BatchState.is_active (batch s)); [done|].
  destruct (Session.get "images" (VList []) (session s)) as [| | | | |l| |];
    try done.
  destruct l as [|img imgs]; [done|].
  destruct (validate_indices _ _) as [|i rest]; [done|].
  destruct (validate_method (method req)) as [[|] err]; [|done].
  destruct (int_of_max_workers (max_workers req)) as [msg|user]; [done|].
  by destruct (mapM _ _).
Qed.

End NextBatch.

(** X19. A batch blocks the submit route only while it runs: once a request
    has been admitted, the same request under a new id is answered 409 in
    the state the admission leaves, and 202 again in the state the
    background thread leaves when it ends. The run has changed no session
    key other than ['batch_processed_images'] and ['is_batch_mode'], so the
    images are those the first request saw. *)
Theorem next_batch_is_admitted_after_run (e : Server.env) (bid bid' : string)
    (req : Server.submit_request) (s : Server.state)
    (futs : list Server.future) (final : Server.state) :
  let admitted := (Server.run_color_correction_parallel e bid req s).1.2 in
  Server.code (Server.run_color_correction_parallel e bid req s).1.1 = 202 ->
  Server.processed_is_list (Server.session s) ->
  Server.process_batch_background e futs admitted = Some final ->
  Server.code (Server.run_color_correction_parallel e bid' req admitted).1.1 = 409
  ∧ Server.code (Server.run_color_correction_parallel e bid' req final).1.1 = 202
  ∧ ∀ k, k ≠ "batch_processed_images" -> k ≠ "is_batch_mode" ->
         Server.session final !! k = Server.session s !! k.
Proof.
  intros admitted H202 Hl Hrun. subst admitted.
  destruct (submit_accepted e bid req s H202)
    as (images & fnames & user & Hcc & Hmw & Hact & Himg & Hne & Hm & Hmap
        & Heq).
  rewrite Heq in Hrun |- *. cbn [fst snd] in Hrun |- *.
  set (s1 := {| Server.batch := _; Server.session := _ |}) in *.
  assert (Hl1 : Server.processed_is_list (Server.session s1)).
  { destruct Hl as [l Hl]. exists l. subst s1. cbn [Server.session].
    unfold Session.get, Session.set in *. by rewrite lookup_insert_ne. }
  assert (Hframe : ∀ k, k ≠ "batch_processed_images" -> k ≠ "is_batch_mode" ->
            Server.session final !! k = Server.session s !! k).
  { intros k Hk1 Hk2.
    unfold Server.process_batch_background in Hrun.
    destruct (Server.fan_in e (length futs) 0 futs (Server.submit_all futs s1))
      as [[n s2]|] eqn:Hfan; [|done].
    injection Hrun as <-.
    destruct (submit_all_effect futs s1) as (_ & Hs & _).
    assert (Hl0 : Server.processed_is_list
                    (Server.session (Server.submit_all futs s1)))
      by (by rewrite Hs).
    unfold Server.teardown. cbn [Server.session]. unfold Session.set.
    rewrite lookup_insert_ne by done.
    rewrite (fan_in_session_frame e _ _ _ _ _ _ k Hfan Hl0 Hk1), Hs.
    subst s1. cbn [Server.session]. unfold Session.set.
    by rewrite lookup_insert_ne. }
  split; [|split; [|exact Hframe]].
  - unfold Server.run_color_correction_parallel. rewrite Hcc. simpl.
    by destruct (Server.batch s).
  - rewrite <- H202. apply submit_code_depends_on.
    + rewrite Hact.
      unfold Server.process_batch_background in Hrun.
      destruct (Server.fan_in e (length futs) 0 futs (Server.submit_all futs s1))
        as [[n s2]|]; [|done].
      injection Hrun as <-. unfold Server.teardown, BatchState.is_active.
      cbn [Server.batch]. by destruct (Server.batch s2).
    + unfold Session.get. by rewrite Hframe.
Qed.

Lemma next_batch_is_admitted_after_run_witness :
  ∃ final,
    Server.process_batch_background Example.env [Example.quick] Example.admitted
      = Some final
    ∧ Server.code (Server.run_color_correction_parallel Example.env "batch_2"
                     Example.request Example.admitted).1.1 = 409
    ∧ Server.code (Server.run_color_correction_parallel Example.env "batch_2"
                     Example.request final).1.1 = 202.
Proof.
  eexists. split; [reflexivity|].
  assert (Hl : Server.processed_is_list (Server.session Example.loaded)).
  { exists []. reflexivity. }
  destruct (next_batch_is_admitted_after_run Example.env "batch_1" "batch_2"
              Example.request Example.loaded [Example.quick] _ eq_refl Hl eq_refl)
    as (H1 & H2 & _).
  split; [exact H1 | exact H2].
Defined.
